(** * fatbox: an upload relay

    A shallow embedding of [server.go] and of the cache layer
    ([InitDB], [GetURLsByHash], [storeUrl]) of the fatbox upload relay:
    chunk store, assembler, dedup cache, forwarder and the request
    handlers that sequence them.

    Conventions of the embedding.
    - Go strings are [string]; file contents are [list Byte.byte];
      [int] values (chunk indices, HTTP status codes) are [Z].
    - The file system is explicit state: the session directories under
      [uploadsDir] and the files under [tempDir].  A directory is the
      association list [os.ReadDir] returns, ordered by file name.
      Upload ids, chunk names and file names are single path elements
      ([pathElement]), for which [filepath.Join] is concatenation.
    - Disk writes complete: the 500 answers [chunkHandler] and
      [directHandler] give when [os.MkdirAll], [io.Copy] or [Close] fail
      are outside the model.
    - The process environment (hash function, backend replies, database
      availability, JSON decoder) is the record [Env].
    - Log lines are not modelled; the observable effects of a request are
      the response, the new file system, the new cache table and the
      [trace] of hash, cache and HTTP operations it performed. *)

From Stdlib Require Import ZArith String Ascii List Permutation Sorted DecimalString.
From Stdlib Require Strings.Byte.
From Stdlib Require OrderedTypeEx.
From stdpp Require Import gmap strings list fin_maps sorting.

Abbreviation byte := Byte.byte.

(** ** Results *)

Inductive res (E A : Type) : Type :=
| Ok (a : A)
| Err (e : E).
Arguments Ok {E A} a.
Arguments Err {E A} e.

(** ** Library functions used by the server *)

(** [strings.HasPrefix(s, prefix)]. *)
Definition strings_HasPrefix (s prefix : string) : bool := String.prefix prefix s.

(** [strings.TrimPrefix(s, prefix)]: [s] without the leading [prefix], or [s]
    itself when it does not start with [prefix]. *)
Definition strings_TrimPrefix (s prefix : string) : string :=
  if strings_HasPrefix s prefix
  then String.substring (String.length prefix) (String.length s - String.length prefix) s
  else s.

Definition isDigit (c : ascii) : bool :=
  ((48 <=? N_of_ascii c) && (N_of_ascii c <=? 57))%N.

(** The digit loop of [strconv.Atoi]: [n = n*10 + int(ch - '0')], a syntax
    error on any byte that is not a decimal digit. *)
Fixpoint parseDigits (n : Z) (s : string) : option Z :=
  match s with
  | EmptyString => Some n
  | String ch rest =>
      if isDigit ch
      then parseDigits (n * 10 + (Z.of_N (N_of_ascii ch) - 48))%Z rest
      else None
  end.

(** [strconv.Atoi] on a 64-bit platform: an optional sign, then at least one
    decimal digit, nothing else; a value outside the [int] range is an error
    as well.  [None] stands for [err != nil]. *)
Definition strconv_Atoi (s : string) : option Z :=
  match s with
  | EmptyString => None
  | String c rest =>
      let neg := Ascii.eqb c "-" in
      let digits := if neg || Ascii.eqb c "+" then rest else s in
      match digits with
      | EmptyString => None
      | _ =>
          match parseDigits 0 digits with
          | None => None
          | Some n =>
              let v := if neg then (- n)%Z else n in
              if ((- 2 ^ 63 <=? v) && (v <=? 2 ^ 63 - 1))%Z then Some v else None
          end
      end
  end.

(** [fmt.Sprintf("%d", n)]. *)
Definition itoa (n : Z) : string := NilZero.string_of_int (Z.to_int n).

(** [filepath.Join(dir, name)] on a clean [dir] and a [name] that is one
    path element (no separator, no dot segment), where joining is all
    [Join] does. *)
Definition filepath_Join (dir name : string) : string := dir +:+ "/" +:+ name.

Fixpoint hasSlash (s : string) : bool :=
  match s with
  | EmptyString => false
  | String c rest => Ascii.eqb c "/" || hasSlash rest
  end.

(** [filepath.Ext(path)]: the suffix starting at the last dot of the last
    path element, empty when there is none. *)
Fixpoint filepath_Ext (path : string) : string :=
  match path with
  | EmptyString => EmptyString
  | String c rest =>
      match filepath_Ext rest with
      | EmptyString =>
          if hasSlash rest then EmptyString
          else if Ascii.eqb c "." then path else EmptyString
      | ext => ext
      end
  end.

(** *** [sort.Slice]

    [sort.Slice] runs [pdqsort_func], which hands every slice of at most
    [maxInsertion] elements to [insertionSort_func]:
<<
    for i := a + 1; i < b; i++ {
        for j := i; j > a && data.Less(j, j-1); j-- { data.Swap(j, j-1) }
    }
>>
    [sink] is the inner loop: [before] holds [data[a..i)] nearest element
    first, and [x = data[i]] moves left while it is less than its left
    neighbour.  On longer slices the library partitions first.  Whenever
    [less] is a strict order without ties on the elements the result is the
    same list (a sorted permutation is then unique, see
    [sort_Slice_determined] below); with ties, or with elements that
    compare "not less" both ways, the order of a longer slice is the
    library's choice, and the statements below use nothing of it but that
    it is a permutation of the input. *)

Definition maxInsertion : nat := 12.

Fixpoint sink {A : Type} (less : A -> A -> bool) (x : A) (before : list A) : list A :=
  match before with
  | [] => [x]
  | y :: before' => if less x y then y :: sink less x before' else x :: before
  end.

Definition insertionSort_func {A : Type} (less : A -> A -> bool) (data : list A) : list A :=
  rev (fold_left (fun before x => sink less x before) data []).

Definition sort_Slice {A : Type} (less : A -> A -> bool) (data : list A) : list A :=
  insertionSort_func less data.

(** ** Transient storage *)

(** What a directory entry is to the code that reads it. *)
Inductive node : Type :=
| Directory                      (* [e.IsDir()] holds *)
| Regular (data : list byte)     (* a file that reads back [data] *)
| Unreadable                     (* not a directory, and every open of it fails *)
| Faulty (data : list byte).     (* opens, delivers [data], then the read fails *)

Definition IsDir (n : node) : bool :=
  match n with Directory => true | _ => false end.

(** A directory listing, in the order [os.ReadDir] gives it (by file name). *)
Abbreviation dir := (list (string * node)).

Record FS : Type := mkFS {
  uploads : gmap string dir;         (* session directories, by path *)
  temp : gmap string (list byte);    (* files of [tempDir], by path *)
  tempWritable : bool                (* whether [os.Create] succeeds in [tempDir] *)
}.

Definition uploadsDir : string := "/tmp/uploads".
Definition tempDir : string := "/tmp/temp".

Fixpoint dirLookup (d : dir) (name : string) : option node :=
  match d with
  | [] => None
  | (k, n) :: d' => if String.eqb k name then Some n else dirLookup d' name
  end.

(** Adding or replacing the entry [name], keeping the listing ordered. *)
Fixpoint dirPut (name : string) (n : node) (d : dir) : dir :=
  match d with
  | [] => [(name, n)]
  | (k, v) :: d' =>
      match String.compare name k with
      | Lt => (name, n) :: d
      | Eq => (name, n) :: d'
      | Gt => (k, v) :: dirPut name n d'
      end
  end.

(** [os.ReadDir(path)]: fails when the directory does not exist. *)
Definition os_ReadDir (fs : FS) (path : string) : option dir := uploads fs !! path.

(** [os.MkdirAll(path, 0755)] below [uploadsDir]. *)
Definition os_MkdirAll (fs : FS) (path : string) : FS :=
  match uploads fs !! path with
  | Some _ => fs
  | None => mkFS (<[path := []]> (uploads fs)) (temp fs) (tempWritable fs)
  end.

(** [os.Create] of [name], one path element, inside the session directory
    [path], followed by an [io.Copy] of [data] into it that completes:
    truncates a file that is there, fails on a directory and on an entry
    that cannot be opened. *)
Definition writeChunk (fs : FS) (path name : string) (data : list byte) : option FS :=
  match uploads fs !! path with
  | None => None
  | Some d =>
      match dirLookup d name with
      | Some Directory | Some Unreadable => None
      | _ => Some (mkFS (<[path := dirPut name (Regular data) d]> (uploads fs))
                        (temp fs) (tempWritable fs))
      end
  end.

(** [os.Create(path)] in [tempDir]: an empty file, replacing what was there. *)
Definition os_Create (fs : FS) (path : string) : option FS :=
  if tempWritable fs
  then Some (mkFS (uploads fs) (<[path := []]> (temp fs)) true)
  else None.

Definition writeTemp (fs : FS) (path : string) (data : list byte) : FS :=
  mkFS (uploads fs) (<[path := data]> (temp fs)) (tempWritable fs).

(** [os.Remove(path)] of a file of [tempDir]. *)
Definition os_Remove (fs : FS) (path : string) : FS :=
  mkFS (uploads fs) (delete path (temp fs)) (tempWritable fs).

(** [os.RemoveAll(path)] of the directory of one session: [path] is
    [uploadsDir] joined with one path element. *)
Definition os_RemoveAll (fs : FS) (path : string) : FS :=
  mkFS (delete path (uploads fs)) (temp fs) (tempWritable fs).

(** ** Assembler *)

Inductive AssembleError : Type :=
| NoChunksFound (chunkDir : string)       (* "no chunks found for %s: %w" *)
| CreateFinalFailed                       (* "failed to create final file: %w" *)
| OpenChunkFailed (chunkName : string)    (* "error opening chunk %s for reading: %w" *)
| WriteChunkFailed (chunkName : string).  (* "error writing chunk %s to final file: %w" *)

(** The filter of the listing loop:
    [!e.IsDir() && strings.HasPrefix(e.Name(), "chunk_")]. *)
Definition isChunkEntry (e : string * node) : bool :=
  negb (IsDir (snd e)) && strings_HasPrefix (fst e) "chunk_".

Definition chunkIndex (chunkName : string) : option Z :=
  strconv_Atoi (strings_TrimPrefix chunkName "chunk_").

(** The comparison closure handed to [sort.Slice]. *)
Definition chunkLess (ci cj : string) : bool :=
  match chunkIndex ci, chunkIndex cj with
  | Some ni, Some nj => (ni <? nj)%Z
  | _, _ => false
  end.

(** The names the assembler concatenates, in order. *)
Definition chunkNames (entries : dir) : list string :=
  sort_Slice chunkLess (map fst (List.filter isChunkEntry entries)).

(** The copy loop.  [written] is what the final file holds so far; the
    second component is the error that stopped the loop, if any. *)
Fixpoint copyChunks (entries : dir) (chunks : list string) (written : list byte)
  : list byte * option AssembleError :=
  match chunks with
  | [] => (written, None)
  | chunkName :: chunks' =>
      match dirLookup entries chunkName with
      | Some (Regular data) => copyChunks entries chunks' (written ++ data)
      | Some (Faulty data) => (written ++ data, Some (WriteChunkFailed chunkName))
      | Some Directory => (written, Some (WriteChunkFailed chunkName))
      | Some Unreadable | None => (written, Some (OpenChunkFailed chunkName))
      end
  end.

(** [assembleChunks(chunkDir, filename)]; [uuid] is the value [uuid.New()]
    draws for this call. *)
Definition assembleChunks (fs : FS) (uuid chunkDir filename : string)
  : FS * res AssembleError string :=
  match os_ReadDir fs chunkDir with
  | None => (fs, Err (NoChunksFound chunkDir))
  | Some entries =>
      let chunks := chunkNames entries in
      let uniqueFinalName := uuid +:+ "-" +:+ filename in
      let finalPath := filepath_Join tempDir uniqueFinalName in
      match os_Create fs finalPath with
      | None => (fs, Err CreateFinalFailed)
      | Some fs1 =>
          match copyChunks entries chunks [] with
          | (written, Some e) => (writeTemp fs1 finalPath written, Err e)
          | (written, None) => (writeTemp fs1 finalPath written, Ok finalPath)
          end
      end
  end.

(** ** Dedup cache *)

(** [sql.NullString] is an [option string]: [None] is [Valid = false]. *)
Record FileHashRecord : Type := mkRecord {
  Hash : string;
  CatboxURL : option string;
  PomfURL : option string
}.

(** A row of table [hash]: the columns [catbox] and [pomf], by primary key. *)
Record Row : Type := mkRow {
  catbox : option string;
  pomf : option string
}.

Inductive StoreError : Type :=
| UnsupportedStore (destination : string)  (* "cannot store URL for unsupported destination: %s" *)
| ExecFailed.                              (* "database insert/update failed: %w" *)

(** ** Forwarder *)

Record MultipartBody : Type := mkBody {
  fields : list (string * string);   (* [writer.WriteField], in order *)
  fileField : string;                (* field name of [writer.CreateFormFile] *)
  fileName : string;
  fileData : list byte
}.

(** What [client.Do] and [io.ReadAll] give back. *)
Inductive HttpOutcome : Type :=
| DoFailed (cause : string)
| ReadFailed (cause : string)
| Responded (StatusCode : Z) (respBody : string).

(** The struct the pomf reply is decoded into. *)
Record PomfResult : Type := mkPomf {
  Success : bool;
  Files : list string;               (* the [url] of each element *)
  Error : string
}.

Inductive ForwardError : Type :=
| UnsupportedDestination (destination : string)
| RequestFailed (cause : string)
| ReadBodyFailed (cause : string)
| BadStatus (StatusCode : Z) (respBody : string)
| PomfParseFailed
| PomfUploadFailed (msg : string)
| PomfMissingURL.

(** [err.Error()] of the errors [forwardToDestination] builds. *)
Definition ForwardError_Error (e : ForwardError) : string :=
  match e with
  | UnsupportedDestination d => "destination '" +:+ d +:+ "' is not supported"
  | RequestFailed cause => "http request failed: " +:+ cause
  | ReadBodyFailed cause => "failed to read response body: " +:+ cause
  | BadStatus code body => "upload failed with status " +:+ itoa code +:+ ": " +:+ body
  | PomfParseFailed => "failed to parse pomf response"
  | PomfUploadFailed msg => "pomf upload failed: " +:+ msg
  | PomfMissingURL => "pomf response missing file URL"
  end.

Definition urlMap (destination : string) : option string :=
  if String.eqb destination "pomf" then Some "https://pomf.lain.la/upload.php"
  else if String.eqb destination "catbox" then Some "https://catbox.moe/user/api.php"
  else if String.eqb destination "litterbox"
       then Some "https://litterbox.catbox.moe/resources/internals/api.php"
  else None.

(** ** Environment and state of a request *)

Record Env : Type := mkEnv {
  sha256_hex : list byte -> string;                (* [fmt.Sprintf("%x", sha256 sum)] *)
  backend : string -> MultipartBody -> HttpOutcome;  (* reply to a POST *)
  json_Unmarshal : string -> option PomfResult;
  queryFails : bool;                               (* [db.QueryRow(...).Scan] errs *)
  execFails : bool                                 (* [db.Exec] errs *)
}.

(** What a request did besides answering: a fingerprint computed, a cache
    row looked up, an upsert attempted, a POST whose body was streamed to a
    backend. *)
Inductive Event : Type :=
| Hashed (filePath : string)
| CacheLookup (hash : string)
| CacheUpsert (hash destination url : string)
| Posted (url : string) (body : MultipartBody).

Record World : Type := mkWorld {
  fs : FS;
  db : gmap string Row;
  trace : list Event
}.

Definition setFS (w : World) (fs' : FS) : World := mkWorld fs' (db w) (trace w).
Definition emit (w : World) (e : Event) : World := mkWorld (fs w) (db w) (trace w ++ [e]).

(** [calculateFileHash(filePath)]. *)
Definition calculateFileHash (env : Env) (w : World) (filePath : string)
  : World * option string :=
  match temp (fs w) !! filePath with
  | None => (w, None)
  | Some data => (emit w (Hashed filePath), Some (sha256_hex env data))
  end.

(** [SELECT catbox, pomf FROM hash WHERE hash = $1 LIMIT 1] scanned into a
    record whose [Hash] is already set; [sql.ErrNoRows] leaves both URLs
    invalid. *)
Definition selectRow (table : gmap string Row) (hash : string) : FileHashRecord :=
  match table !! hash with
  | None => mkRecord hash None None
  | Some row => mkRecord hash (catbox row) (pomf row)
  end.

(** [GetURLsByHash(hash)]: no row is an empty record, not an error. *)
Definition GetURLsByHash (env : Env) (w : World) (hash : string)
  : World * option FileHashRecord :=
  let w1 := emit w (CacheLookup hash) in
  if queryFails env then (w1, None) else (w1, Some (selectRow (db w) hash)).

(** [storeUrl(hash, destination, url)]:
    [INSERT ... ON CONFLICT (hash) DO UPDATE SET <column> = EXCLUDED.<column>]. *)
Definition storeUrl (env : Env) (w : World) (hash destination url : string)
  : World * option StoreError :=
  let upsert (set : Row -> Row) (fresh : Row) :=
    let w1 := emit w (CacheUpsert hash destination url) in
    if execFails env then (w1, Some ExecFailed)
    else (mkWorld (fs w1)
                  (<[hash := match db w !! hash with
                             | Some row => set row
                             | None => fresh
                             end]> (db w))
                  (trace w1), None) in
  if String.eqb destination "catbox"
  then upsert (fun row => mkRow (Some url) (pomf row)) (mkRow (Some url) None)
  else if String.eqb destination "pomf"
  then upsert (fun row => mkRow (catbox row) (Some url)) (mkRow None (Some url))
  else (w, Some (UnsupportedStore destination)).

(** The goroutine of [forwardToDestination] that writes the multipart body
    into the pipe; an error closes the pipe and fails the request. *)
Definition multipartBody (w : World) (destination filePath filename userhash timeVal : string)
  : res string MultipartBody :=
  match temp (fs w) !! filePath with
  | None => Err "failed to open file for streaming"
  | Some data =>
      if String.eqb destination "pomf"
      then Ok (mkBody [] "files[]" filename data)
      else if String.eqb destination "catbox" || String.eqb destination "litterbox"
      then Ok (mkBody
                 ([("reqtype", "fileupload")]
                  ++ (if String.eqb destination "catbox" && negb (String.eqb userhash "")
                      then [("userhash", userhash)] else [])
                  ++ (if String.eqb destination "litterbox"
                      then [("time", timeVal)] else []))
                 "fileToUpload" filename data)
      else Err ("unknown destination: " +:+ destination)
  end.

(** [forwardToDestination(destination, filePath, filename, userhash, timeVal)]. *)
Definition forwardToDestination (env : Env) (w : World)
    (destination filePath filename userhash timeVal : string)
  : World * res ForwardError string :=
  match urlMap destination with
  | None => (w, Err (UnsupportedDestination destination))
  | Some url =>
      match multipartBody w destination filePath filename userhash timeVal with
      | Err cause => (w, Err (RequestFailed cause))
      | Ok body =>
          let w1 := emit w (Posted url body) in
          match backend env url body with
          | DoFailed cause => (w1, Err (RequestFailed cause))
          | ReadFailed cause => (w1, Err (ReadBodyFailed cause))
          | Responded StatusCode respBody =>
              if negb (StatusCode =? 200)%Z
              then (w1, Err (BadStatus StatusCode respBody))
              else if String.eqb destination "pomf"
              then match json_Unmarshal env respBody with
                   | None => (w1, Err PomfParseFailed)
                   | Some result =>
                       if negb (Success result)
                       then (w1, Err (PomfUploadFailed (Error result)))
                       else match Files result with
                            | url0 :: _ => (w1, Ok url0)
                            | [] => (w1, Err PomfMissingURL)
                            end
                   end
              else (w1, Ok respBody)
          end
      end
  end.

(** ** Responses and requests *)

Inductive Body : Type :=
| JsonUrl (url : string)                  (* [{"url": url}] *)
| JsonMessage (message : string)          (* [{"message": message}] *)
| Text (msg : string)                     (* [http.Error(w, msg, code)] *)
| AssembleFailed (e : AssembleError)      (* [http.Error(w, err.Error(), code)] *)
| UploadFailed (e : ForwardError).        (* ["Upload failed: " + err.Error()] *)

Record Response : Type := mkResponse {
  status : Z;
  body : Body
}.

Definition StatusOK : Z := 200.
Definition StatusBadRequest : Z := 400.
Definition StatusInternalServerError : Z := 500.

Definition http_Error (b : Body) (code : Z) : Response := mkResponse code b.
Definition json_Encode (b : Body) : Response := mkResponse StatusOK b.

Record Request : Type := mkRequest {
  formParses : bool;                               (* [r.ParseMultipartForm] succeeds *)
  form : gmap string string;
  formFiles : gmap string (string * list byte)     (* field -> (header.Filename, bytes) *)
}.

(** [r.FormValue(key)]: the empty string when the field is absent. *)
Definition FormValue (r : Request) (key : string) : string := default "" (form r !! key).

(** ** Pipeline *)

(** The value of [cachedURL] after the two tests on the record: the stored
    URL of the requested backend when its column is valid, else empty. *)
Definition cachedURL (destination : string) (record : FileHashRecord) : string :=
  match String.eqb destination "catbox", CatboxURL record with
  | true, Some u => u
  | _, _ =>
      match String.eqb destination "pomf", PomfURL record with
      | true, Some u => u
      | _, _ => ""
      end
  end.

(** [processAndForwardFile(w, filePath, filename, userhash, destination, timeVal)]. *)
Definition processAndForwardFile (env : Env) (w : World)
    (filePath filename userhash destination timeVal : string)
  : World * Response :=
  if String.eqb destination "litterbox"
  then match forwardToDestination env w destination filePath filename userhash timeVal with
       | (w1, Err err) => (w1, http_Error (UploadFailed err) StatusInternalServerError)
       | (w1, Ok url) => (w1, json_Encode (JsonUrl url))
       end
  else
    match calculateFileHash env w filePath with
    | (w1, None) => (w1, http_Error (Text "Failed to calculate file hash") StatusInternalServerError)
    | (w1, Some hash) =>
        match GetURLsByHash env w1 hash with
        | (w2, None) => (w2, http_Error (Text "Internal Server Error") StatusInternalServerError)
        | (w2, Some record) =>
            if negb (String.eqb (cachedURL destination record) "")
            then (w2, json_Encode (JsonUrl (cachedURL destination record)))
            else
              match forwardToDestination env w2 destination filePath filename userhash timeVal with
              | (w3, Err err) => (w3, http_Error (UploadFailed err) StatusInternalServerError)
              | (w3, Ok url) =>
                  let (w4, _) := storeUrl env w3 hash destination url in
                  (w4, json_Encode (JsonUrl url))
              end
        end
    end.

(** ** Handlers *)

(** [chunkHandler], for a session directory that [os.MkdirAll] can make
    and a copy that completes. *)
Definition chunkHandler (w : World) (r : Request) : World * Response :=
  if negb (formParses r)
  then (w, http_Error (Text "Invalid form") StatusBadRequest)
  else
    let uploadId := FormValue r "uploadId" in
    let index := FormValue r "index" in
    if String.eqb uploadId "" || String.eqb index ""
    then (w, http_Error (Text "Missing uploadId or index") StatusBadRequest)
    else
      match formFiles r !! "chunk" with
      | None => (w, http_Error (Text "Missing chunk file") StatusBadRequest)
      | Some (_, data) =>
          let uploadPath := filepath_Join uploadsDir uploadId in
          let fs1 := os_MkdirAll (fs w) uploadPath in
          match writeChunk fs1 uploadPath ("chunk_" +:+ index) data with
          | None => (setFS w fs1,
                     http_Error (Text "Failed to save chunk") StatusInternalServerError)
          | Some fs2 =>
              (setFS w fs2,
               json_Encode (JsonMessage ("Chunk " +:+ index +:+ " for " +:+ uploadId +:+ " received.")))
          end
      end.

(** [finishHandler]; the two deferred removals run, last registered first,
    on every return that follows their registration. *)
Definition finishHandler (env : Env) (uuid : string) (w : World) (r : Request)
  : World * Response :=
  let uploadId := FormValue r "uploadId" in
  let filename := FormValue r "filename" in
  let userhash := FormValue r "userhash" in
  let destination := FormValue r "destination" in
  let timeVal := FormValue r "time" in
  let timeVal := if String.eqb timeVal "" then "1h" else timeVal in
  if String.eqb uploadId "" || String.eqb filename "" || String.eqb destination ""
  then (w, http_Error (Text "Missing uploadId, filename, or destination") StatusBadRequest)
  else
    let chunkDir := filepath_Join uploadsDir uploadId in
    let removeChunkDir (w' : World) := setFS w' (os_RemoveAll (fs w') chunkDir) in
    match assembleChunks (fs w) uuid chunkDir filename with
    | (fs1, Err err) =>
        (removeChunkDir (setFS w fs1),
         http_Error (AssembleFailed err) StatusInternalServerError)
    | (fs1, Ok finalPath) =>
        let (w1, resp) :=
          processAndForwardFile env (setFS w fs1) finalPath filename userhash destination timeVal in
        (removeChunkDir (setFS w1 (os_Remove (fs w1) finalPath)), resp)
    end.

(** [directHandler], for a copy and a [Close] of the temporary file that
    complete. *)
Definition directHandler (env : Env) (uuid : string) (w : World) (r : Request)
  : World * Response :=
  if negb (formParses r)
  then (w, http_Error (Text "Invalid form") StatusBadRequest)
  else
    match formFiles r !! "file" with
    | None => (w, http_Error (Text "Missing file") StatusBadRequest)
    | Some (headerFilename, data) =>
        let uniqueFilename := uuid +:+ filepath_Ext headerFilename in
        let tempPath := filepath_Join tempDir uniqueFilename in
        match os_Create (fs w) tempPath with
        | None => (w, http_Error (Text "Failed to save temporary file") StatusInternalServerError)
        | Some fs1 =>
            let fs2 := writeTemp fs1 tempPath data in
            let destination := FormValue r "destination" in
            let timeVal := FormValue r "time" in
            let timeVal := if String.eqb timeVal "" then "1h" else timeVal in
            let userhash := FormValue r "userhash" in
            let (w1, resp) :=
              processAndForwardFile env (setFS w fs2) tempPath headerFilename userhash
                                    destination timeVal in
            (setFS w1 (os_Remove (fs w1) tempPath), resp)
        end
    end.

(** ** Vocabulary of the statements *)

(** The events a request added to the trace. *)
Definition newEvents (before after : World) : list Event :=
  drop (length (trace before)) (trace after).

Definition isPost (e : Event) : Prop := exists url body, e = Posted url body.

(** [sub] occurs in [s]. *)
Definition contains (sub s : string) : Prop := exists pre post, s = pre +:+ sub +:+ post.

Definition parseable (chunkName : string) : Prop := is_Some (chunkIndex chunkName).

(** Every entry with an unparseable index comes after every entry with a
    parseable one. *)
Definition unparseableLast (names : list string) : Prop :=
  forall i j a b,
    names !! i = Some a -> names !! j = Some b ->
    chunkIndex a = None -> parseable b -> (j < i)%nat.

(** The entries with a parseable index appear in ascending index order. *)
Definition parseableAscending (names : list string) : Prop :=
  forall i j a b na nb,
    names !! i = Some a -> names !! j = Some b ->
    chunkIndex a = Some na -> chunkIndex b = Some nb ->
    (i < j)%nat -> (na <= nb)%Z.

(** Neighbours of the sorted slice: the right one is never less than the
    left one. *)
Definition notBefore (a b : string) : Prop := chunkLess b a = false.

(** Ascending order of indices, on names and on uploads. *)
Definition indexLe (a b : string) : Prop :=
  match strconv_Atoi a, strconv_Atoi b with
  | Some na, Some nb => (na <= nb)%Z
  | _, _ => False
  end.

Definition chunkIndexLe (a b : string) : Prop :=
  match chunkIndex a, chunkIndex b with
  | Some na, Some nb => (na <= nb)%Z
  | _, _ => False
  end.

(** A name that is one path element: not empty, not a dot segment, no
    separator.  [filepath.Join(dir, name)] is then [dir/name], an entry of
    [dir] itself. *)
Definition pathElement (name : string) : Prop :=
  name <> "" /\ name <> "." /\ name <> ".." /\ hasSlash name = false.

(** The path [assembleChunks] gives the artifact. *)
Definition finalPathOf (uuid filename : string) : string :=
  filepath_Join tempDir (uuid +:+ "-" +:+ filename).

(** The bytes a readable chunk contributes. *)
Definition chunkData (entries : dir) (chunkName : string) : list byte :=
  match dirLookup entries chunkName with
  | Some (Regular data) => data
  | _ => []
  end.

Definition readable (entries : dir) : Prop :=
  Forall (fun e => isChunkEntry e = true -> exists data, snd e = Regular data) entries.

(** A chunk upload of session [uploadId] carrying index text [u.1] and
    payload [u.2]. *)
Definition carries (uploadId : string) (r : Request) (u : string * list byte) : Prop :=
  formParses r = true /\
  FormValue r "uploadId" = uploadId /\
  FormValue r "index" = u.1 /\
  snd <$> (formFiles r !! "chunk") = Some u.2.

(** The session directory as the next chunk upload finds it. *)
Definition sessionDir (w : World) (uploadId : string) : dir :=
  default [] (uploads (fs w) !! filepath_Join uploadsDir uploadId).

(** The state after the chunk uploads [rs], in arrival order. *)
Definition receiveChunks (w : World) (rs : list Request) : World :=
  fold_left (fun w r => (chunkHandler w r).1) rs w.

Definition chunkRequest (uploadId index : string) (data : list byte) : Request :=
  mkRequest true (<["uploadId" := uploadId]> (<["index" := index]> ∅))
            (<["chunk" := ("blob", data)]> ∅).

Definition finishRequest (uploadId filename destination : string) : Request :=
  mkRequest true
    (<["uploadId" := uploadId]> (<["filename" := filename]> (<["destination" := destination]> ∅)))
    ∅.

Definition directRequest (headerFilename : string) (data : list byte) (destination : string)
  : Request :=
  mkRequest true (<["destination" := destination]> ∅) (<["file" := (headerFilename, data)]> ∅).

(** An environment for examples: one fingerprint for every content, one
    reply for every POST, a database whose writes fail on demand. *)
Definition exampleEnv (reply : HttpOutcome) (execFails : bool) : Env :=
  mkEnv (fun _ => "0f1e2d") (fun _ _ => reply) (fun _ => None) false execFails.

(** A state with one stored artifact and one cache row for its fingerprint. *)
Definition exampleWorld : World :=
  mkWorld (mkFS ∅ {["/tmp/temp/a.bin" := list_byte_of_string "A"]} true)
          {["0f1e2d" := mkRow (Some "https://files.catbox.moe/abc.bin") None]}
          [].

Definition emptyFS : FS := mkFS ∅ ∅ true.
Definition emptyWorld : World := mkWorld emptyFS ∅ [].

(** ** Download passthrough *)

(** What the proxy handler reads of a request: the method, [r.URL.Path] and
    [r.Header.Get("Range")] (empty when the header is absent). *)
Record ProxyRequest : Type := mkProxyRequest {
  Method : string;
  Path : string;
  Range : string
}.

Record UpstreamResponse : Type := mkUpstream {
  upStatus : Z;
  upHeader : list (string * list string);
  upBody : list byte
}.

(** The outbound GET: its URL and the [Range] header set on it, if any. *)
Record UpstreamRequest : Type := mkUpstreamRequest {
  targetURL : string;
  rangeHeader : option string
}.

Record ProxyEnv : Type := mkProxyEnv {
  newRequestFails : string -> bool;                        (* [http.NewRequest] errs *)
  upstream : UpstreamRequest -> option UpstreamResponse    (* [client.Do]; [None] is an error *)
}.

Inductive ProxyReply : Type :=
| ProxyError (msg : string) (code : Z)     (* [http.Error(w, msg, code)] *)
| Mirrored (resp : UpstreamResponse).      (* headers, status and body of upstream *)

Definition StatusMethodNotAllowed : Z := 405.
Definition StatusBadGateway : Z := 502.

(** [createProxyHandler(targetHost, stripPrefix)] applied to a request: the
    requests sent upstream and the reply. *)
Definition createProxyHandler (targetHost stripPrefix : string) (env : ProxyEnv)
    (r : ProxyRequest) : list UpstreamRequest * ProxyReply :=
  if negb (String.eqb (Method r) "GET")
  then ([], ProxyError "Method not allowed" StatusMethodNotAllowed)
  else
    let filePath := strings_TrimPrefix (Path r) stripPrefix in
    if String.eqb filePath ""
    then ([], ProxyError "File path is missing." StatusBadRequest)
    else
      let targetURL := targetHost +:+ filePath in
      if newRequestFails env targetURL
      then ([], ProxyError "Internal server error" StatusInternalServerError)
      else
        let req := mkUpstreamRequest targetURL
                     (if negb (String.eqb (Range r) "") then Some (Range r) else None) in
        match upstream env req with
        | None => ([req], ProxyError "Bad Gateway" StatusBadGateway)
        | Some resp => ([req], Mirrored resp)
        end.

(** ** Vocabulary of the further statements *)

(** A listing in the order [os.ReadDir] gives: strictly ascending names. *)
Definition sortedByName (d : dir) : Prop :=
  StronglySorted (fun a b => String.compare a.1 b.1 = Lt) d.

(** Every session directory lists in name order. *)
Definition listingsSorted (w : World) : Prop :=
  forall path d, uploads (fs w) !! path = Some d -> sortedByName d.

(** The column of a record that belongs to a cacheable backend. *)
Definition columnOf (destination : string) (record : FileHashRecord) : option string :=
  if String.eqb destination "catbox" then CatboxURL record
  else if String.eqb destination "pomf" then PomfURL record
  else None.

(** * Properties *)

(** ** Strings *)

Lemma prefix_append (p s : string) : String.prefix p (p +:+ s) = true.
Proof.
  induction p as [|c p IH]; simpl.
  - by destruct s.
  - destruct (ascii_dec c c); [exact IH | done].
Qed.

Lemma substring_whole (s : string) : String.substring 0 (String.length s) s = s.
Proof. induction s as [|d s IHs]; simpl; [done|]. by rewrite IHs. Qed.

Lemma substring_append (p s : string) :
  String.substring (String.length p) (String.length (p +:+ s) - String.length p) (p +:+ s) = s.
Proof.
  induction p as [|c p IH].
  - change ("" +:+ s) with s. rewrite Nat.sub_0_r. apply substring_whole.
  - exact IH.
Qed.

Lemma TrimPrefix_append (p s : string) : strings_TrimPrefix (p +:+ s) p = s.
Proof.
  unfold strings_TrimPrefix, strings_HasPrefix.
  by rewrite prefix_append, substring_append.
Qed.

Lemma chunkIndex_chunk (index : string) : chunkIndex ("chunk_" +:+ index) = strconv_Atoi index.
Proof. unfold chunkIndex. by rewrite TrimPrefix_append. Qed.

Lemma HasPrefix_chunk (index : string) : strings_HasPrefix ("chunk_" +:+ index) "chunk_" = true.
Proof. apply prefix_append. Qed.

Lemma append_cons (x : ascii) (a b : string) : String x a +:+ b = String x (a +:+ b).
Proof. reflexivity. Qed.

Lemma append_assoc (a b c : string) : (a +:+ b) +:+ c = a +:+ (b +:+ c).
Proof. induction a as [|x a IH]; [done|]. by rewrite !append_cons, IH. Qed.

(** ** Insertion sort *)

Section InsertionSort.
Context {A : Type} (less : A -> A -> bool).

Lemma sink_perm (x : A) (before : list A) : sink less x before ≡ₚ x :: before.
Proof.
  induction before as [|y before IH]; simpl; [done|].
  destruct (less x y); [|done].
  rewrite IH. apply perm_swap.
Qed.

Lemma fold_sink_perm (data before : list A) :
  fold_left (fun before x => sink less x before) data before ≡ₚ data ++ before.
Proof.
  revert before. induction data as [|x data IH]; intros before; simpl; [done|].
  rewrite IH, sink_perm. by rewrite Permutation_middle.
Qed.

(** The sorted slice holds the same elements. *)
Lemma insertionSort_perm (data : list A) : insertionSort_func less data ≡ₚ data.
Proof.
  unfold insertionSort_func.
  rewrite <- Permutation_rev, fold_sink_perm. by rewrite app_nil_r.
Qed.

Hypothesis less_asym : forall x y, less x y = true -> less y x = false.

Lemma sink_sorted (x : A) (before : list A) :
  Sorted (fun a b => less a b = false) before ->
  Sorted (fun a b => less a b = false) (sink less x before).
Proof.
  induction before as [|y before IH]; intros Hs; simpl.
  - repeat constructor.
  - destruct (less x y) eqn:Hxy.
    + apply Sorted_inv in Hs as [Hs Hhd]. constructor; [by apply IH|].
      destruct before as [|z before]; simpl.
      * constructor. by apply less_asym.
      * destruct (less x z).
        -- by apply HdRel_inv in Hhd; constructor.
        -- constructor. by apply less_asym.
    + constructor; [exact Hs | by constructor].
Qed.

Lemma fold_sink_sorted (data before : list A) :
  Sorted (fun a b => less a b = false) before ->
  Sorted (fun a b => less a b = false)
         (fold_left (fun before x => sink less x before) data before).
Proof.
  revert before. induction data as [|x data IH]; intros before Hs; simpl; [done|].
  by apply IH, sink_sorted.
Qed.

Lemma Sorted_snoc (R : A -> A -> Prop) (l : list A) (x : A) :
  Sorted R l -> (forall y, last l = Some y -> R y x) -> Sorted R (l ++ [x]).
Proof.
  induction l as [|y l IH]; intros Hs Hlast; simpl.
  - repeat constructor.
  - apply Sorted_inv in Hs as [Hs Hhd]. constructor.
    + apply IH; [done|]. intros z Hz. apply Hlast.
      destruct l; [done|]. exact Hz.
    + destruct l as [|z l]; simpl.
      * constructor. by apply Hlast.
      * apply HdRel_inv in Hhd. by constructor.
Qed.

Lemma Sorted_rev (R : A -> A -> Prop) (l : list A) :
  Sorted R l -> Sorted (fun a b => R b a) (rev l).
Proof.
  induction l as [|x l IH]; intros Hs; simpl; [constructor|].
  apply Sorted_inv in Hs as [Hs Hhd].
  apply Sorted_snoc; [by apply IH|].
  intros y Hy. destruct l as [|z l]; [done|].
  apply HdRel_inv in Hhd. simpl in Hy.
  rewrite last_snoc in Hy. by simplify_eq.
Qed.

(** After the sort no element is less than its left neighbour. *)
Lemma insertionSort_sorted (data : list A) :
  Sorted (fun a b => less b a = false) (insertionSort_func less data).
Proof.
  unfold insertionSort_func.
  apply (Sorted_rev (fun a b => less a b = false)).
  apply fold_sink_sorted. constructor.
Qed.
End InsertionSort.

(** ** The comparison closure *)

Lemma chunkLess_asym (x y : string) : chunkLess x y = true -> chunkLess y x = false.
Proof.
  unfold chunkLess. destruct (chunkIndex x), (chunkIndex y); try done.
  intros H. apply Z.ltb_lt in H. apply Z.ltb_ge. lia.
Qed.

Instance chunkIndexLe_trans : Transitive chunkIndexLe.
Proof.
  intros a b c. unfold chunkIndexLe.
  destruct (chunkIndex a), (chunkIndex b), (chunkIndex c); try done. lia.
Qed.

Lemma notBefore_chunkIndexLe (a b : string) :
  parseable a -> parseable b -> notBefore a b -> chunkIndexLe a b.
Proof.
  intros [na Ha] [nb Hb]. unfold notBefore, chunkLess, chunkIndexLe.
  rewrite Ha, Hb. intros H. apply Z.ltb_ge in H. lia.
Qed.

Lemma Sorted_on {A : Type} (P : A -> Prop) (R1 R2 : A -> A -> Prop) (l : list A) :
  (forall a b, P a -> P b -> R1 a b -> R2 a b) ->
  Forall P l -> Sorted R1 l -> Sorted R2 l.
Proof.
  intros Himp HP Hs. induction Hs as [|x l Hs IH Hhd]; [constructor|].
  apply Forall_cons in HP as [Hx HP]. constructor; [by apply IH|].
  destruct Hhd as [|y l Hxy]; constructor.
  apply Forall_cons in HP as [Hy _]. by apply Himp.
Qed.

(** The names of a sorted slice whose indices all parse are in ascending
    index order. *)
Lemma sort_Slice_ascending (chunks : list string) :
  Forall parseable chunks -> Sorted chunkIndexLe (sort_Slice chunkLess chunks).
Proof.
  intros Hp. apply (Sorted_on parseable notBefore).
  - apply notBefore_chunkIndexLe.
  - apply Forall_forall. intros x Hx.
    rewrite Forall_forall in Hp. apply Hp.
    unfold sort_Slice in Hx. by rewrite insertionSort_perm in Hx.
  - apply insertionSort_sorted, chunkLess_asym.
Qed.

Lemma StronglySorted_lookup {A : Type} (R : A -> A -> Prop) (l : list A) (i j : nat) (a b : A) :
  StronglySorted R l -> l !! i = Some a -> l !! j = Some b -> (i < j)%nat -> R a b.
Proof.
  intros Hs. revert i j. induction Hs as [|x l Hs IH Hall]; intros i j Hi Hj Hlt; [done|].
  destruct j as [|j]; [lia|]. simpl in Hj.
  destruct i as [|i]; simpl in Hi.
  - simplify_eq. rewrite Forall_forall in Hall. apply Hall.
    by eapply list_elem_of_lookup_2.
  - eapply IH; [done..|lia].
Qed.

Lemma Sorted_parseableAscending (names : list string) :
  Sorted chunkIndexLe names -> parseableAscending names.
Proof.
  intros Hs i j a b na nb Hi Hj Ha Hb Hlt.
  apply Sorted_StronglySorted in Hs; [|apply _].
  pose proof (StronglySorted_lookup _ _ _ _ _ _ Hs Hi Hj Hlt) as H.
  unfold chunkIndexLe in H. by rewrite Ha, Hb in H.
Qed.

Lemma sort_Slice_perm (chunks : list string) : sort_Slice chunkLess chunks ≡ₚ chunks.
Proof. apply insertionSort_perm. Qed.

(** ** Directory listings *)

Lemma dirLookup_None (d : dir) (name : string) :
  dirLookup d name = None <-> name ∉ map fst d.
Proof.
  induction d as [|[k v] d IH]; simpl.
  - split; [intros _; apply not_elem_of_nil | done].
  - rewrite not_elem_of_cons. destruct (String.eqb k name) eqn:E.
    + apply String.eqb_eq in E. split; [done | by intros [? _]].
    + apply String.eqb_neq in E. rewrite IH. split; [|by intros [_ ?]].
      intros H. split; [congruence | done].
Qed.

Lemma dirLookup_elem (d : dir) (name : string) (n : node) :
  NoDup (map fst d) -> (name, n) ∈ d -> dirLookup d name = Some n.
Proof.
  induction d as [|[k v] d IH]; intros Hnd Hin; [by apply elem_of_nil in Hin|].
  simpl in *. apply NoDup_cons in Hnd as [Hk Hnd].
  apply elem_of_cons in Hin as [Heq|Hin].
  - simplify_eq. by rewrite String.eqb_refl.
  - destruct (String.eqb k name) eqn:E; [|by apply IH].
    apply String.eqb_eq in E. subst k. exfalso. apply Hk.
    apply list_elem_of_In, in_map_iff. exists (name, n).
    split; [done | by apply list_elem_of_In].
Qed.

Lemma chunkNames_elem (entries : dir) (name : string) :
  name ∈ chunkNames entries <->
  exists n, (name, n) ∈ entries /\ isChunkEntry (name, n) = true.
Proof.
  unfold chunkNames. rewrite sort_Slice_perm.
  rewrite list_elem_of_In, in_map_iff. split.
  - intros [[k n] [Hk Hin]]. simpl in Hk. subst k.
    apply filter_In in Hin as [Hin Hc]. exists n. by rewrite list_elem_of_In.
  - intros [n [Hin Hc]]. exists (name, n). split; [done|].
    apply filter_In. by rewrite <- list_elem_of_In.
Qed.

(** The copy loop over names that all open and read: no error, and the
    chunks' bytes in the order of the names. *)
Lemma copyChunks_readable (entries : dir) (names : list string) (written : list byte) :
  Forall (fun name => exists data, dirLookup entries name = Some (Regular data)) names ->
  copyChunks entries names written
  = (written ++ concat (map (chunkData entries) names), None).
Proof.
  intros Hall. revert written.
  induction Hall as [|name names [data Hd] _ IH]; intros written; simpl.
  - by rewrite app_nil_r.
  - unfold chunkData at 1. rewrite Hd, IH. by rewrite <- app_assoc.
Qed.

Lemma chunkNames_readable (entries : dir) :
  NoDup (map fst entries) -> readable entries ->
  Forall (fun name => exists data, dirLookup entries name = Some (Regular data))
         (chunkNames entries).
Proof.
  intros Hnd Hr. apply Forall_forall. intros name Hin.
  apply chunkNames_elem in Hin as [n [Hin Hc]].
  unfold readable in Hr. rewrite Forall_forall in Hr.
  destruct (Hr _ Hin Hc) as [data Hdata]. simpl in Hdata. subst n.
  exists data. by apply dirLookup_elem.
Qed.

(** Assembly of a session whose chunk entries all read: the artifact is the
    chunks' bytes in the order of [chunkNames]. *)
Lemma assembleChunks_readable (fs : FS) (uuid chunkDir filename : string) (entries : dir) :
  os_ReadDir fs chunkDir = Some entries ->
  NoDup (map fst entries) ->
  readable entries ->
  tempWritable fs = true ->
  exists fs',
    assembleChunks fs uuid chunkDir filename = (fs', Ok (finalPathOf uuid filename)) /\
    uploads fs' = uploads fs /\
    temp fs' !! finalPathOf uuid filename
    = Some (concat (map (chunkData entries) (chunkNames entries))).
Proof.
  intros Hdir Hnd Hr Hw. unfold assembleChunks, os_Create.
  rewrite Hdir, Hw.
  rewrite (copyChunks_readable entries (chunkNames entries) [])
    by by apply chunkNames_readable.
  eexists. split; [reflexivity|]. split; [done|].
  simpl. by rewrite lookup_insert_eq.
Qed.

(** ** Chunks whose index does not parse *)

(** C1, as the code has it.  Assembly of a session whose chunk entries all
    read succeeds, and the artifact is the concatenation of every chunk
    entry, each exactly once, entries with an unparseable index included:
    they are neither dropped nor a reason to fail.  No place is promised
    to them.  When every index parses, the entries are concatenated in
    ascending index order. *)
Theorem assemble_keeps_unparseable_chunks
    (fs : FS) (uuid chunkDir filename : string) (entries : dir) :
  os_ReadDir fs chunkDir = Some entries ->
  NoDup (map fst entries) ->
  readable entries ->
  tempWritable fs = true ->
  pathElement (uuid +:+ "-" +:+ filename) ->
  let chunks := map fst (List.filter isChunkEntry entries) in
  exists fs' order,
    assembleChunks fs uuid chunkDir filename = (fs', Ok (finalPathOf uuid filename)) /\
    temp fs' !! finalPathOf uuid filename = Some (concat (map (chunkData entries) order)) /\
    order ≡ₚ chunks /\
    (Forall parseable chunks -> parseableAscending order).
Proof.
  intros Hdir Hnd Hr Hw _ chunks.
  destruct (assembleChunks_readable fs uuid chunkDir filename entries)
    as (fs' & Hrun & _ & Hbytes); [done..|].
  exists fs', (chunkNames entries).
  split; [exact Hrun|]. split; [exact Hbytes|].
  split; [apply sort_Slice_perm|].
  intros Hp. by apply Sorted_parseableAscending, sort_Slice_ascending.
Qed.

Lemma assemble_keeps_unparseable_chunks_witness :
  let entries : dir :=
    [("chunk_10", Regular (list_byte_of_string "<ten>"));
     ("chunk_1x", Regular (list_byte_of_string "<bad>"));
     ("chunk_2", Regular (list_byte_of_string "<two>"))] in
  let fs := mkFS {["/tmp/uploads/s" := entries]} ∅ true in
  exists fs' order,
    assembleChunks fs "u" "/tmp/uploads/s" "f.bin" = (fs', Ok (finalPathOf "u" "f.bin")) /\
    temp fs' !! finalPathOf "u" "f.bin" = Some (concat (map (chunkData entries) order)) /\
    order ≡ₚ ["chunk_10"; "chunk_1x"; "chunk_2"].
Proof.
  intros entries fs.
  destruct (assemble_keeps_unparseable_chunks fs "u" "/tmp/uploads/s" "f.bin" entries)
    as (fs' & order & Hrun & Hbytes & Hperm & _).
  - reflexivity.
  - apply (bool_decide_unpack _). vm_compute. exact I.
  - repeat constructor; intros _; eexists; reflexivity.
  - reflexivity.
  - repeat split; discriminate.
  - exists fs', order. split; [exact Hrun|]. split; [exact Hbytes | exact Hperm].
Defined.

(** C1, as the specification words it, fails on the session made of the
    chunks ["2"], ["1x"] and ["10"]: the listing is [chunk_10], [chunk_1x],
    [chunk_2], no comparison asks for a swap, and the artifact has the
    unparseable chunk in the middle and chunk 10 before chunk 2. *)
Lemma unparseable_chunk_not_sorted_last :
  let w := receiveChunks emptyWorld
             [chunkRequest "s" "2" (list_byte_of_string "<two>");
              chunkRequest "s" "1x" (list_byte_of_string "<bad>");
              chunkRequest "s" "10" (list_byte_of_string "<ten>")] in
  exists entries fs',
    os_ReadDir (fs w) (filepath_Join uploadsDir "s") = Some entries /\
    chunkNames entries = ["chunk_10"; "chunk_1x"; "chunk_2"] /\
    assembleChunks (fs w) "u" (filepath_Join uploadsDir "s") "f.bin"
    = (fs', Ok (finalPathOf "u" "f.bin")) /\
    temp fs' !! finalPathOf "u" "f.bin" = Some (list_byte_of_string "<ten><bad><two>") /\
    ~ unparseableLast (chunkNames entries) /\
    ~ parseableAscending (chunkNames entries).
Proof.
  intros w. eexists. eexists.
  split; [vm_compute; reflexivity|].
  split; [vm_compute; reflexivity|].
  split; [vm_compute; reflexivity|].
  split; [vm_compute; reflexivity|].
  split.
  - intros H.
    assert (Hp : parseable "chunk_2") by (by exists 2%Z).
    specialize (H 1%nat 2%nat "chunk_1x" "chunk_2" eq_refl eq_refl eq_refl Hp). lia.
  - intros H.
    specialize (H 0%nat 2%nat "chunk_10" "chunk_2" 10%Z 2%Z eq_refl eq_refl eq_refl eq_refl).
    lia.
Qed.

(** ** Chunk store *)

Lemma dirPut_perm (name : string) (n : node) (d : dir) :
  name ∉ map fst d -> dirPut name n d ≡ₚ (name, n) :: d.
Proof.
  induction d as [|[k v] d IH]; intros Hfresh; simpl; [done|].
  simpl in Hfresh. apply not_elem_of_cons in Hfresh as [Hne Hfresh].
  destruct (String.compare name k) eqn:E.
  - by apply String.compare_eq_iff in E.
  - done.
  - rewrite IH by done. apply perm_swap.
Qed.

(** A chunk upload under a name the session does not have yet adds one file
    and touches nothing else of the session. *)
Lemma chunkHandler_stores (w : World) (uploadId : string) (r : Request) (u : string * list byte) :
  carries uploadId r u ->
  uploadId <> "" -> u.1 <> "" ->
  "chunk_" +:+ u.1 ∉ map fst (sessionDir w uploadId) ->
  uploads (fs (chunkHandler w r).1) !! filepath_Join uploadsDir uploadId
  = Some (dirPut ("chunk_" +:+ u.1) (Regular u.2) (sessionDir w uploadId)) /\
  tempWritable (fs (chunkHandler w r).1) = tempWritable (fs w).
Proof.
  intros (Hparse & Hid & Hidx & Hfile) Hid_ne Hidx_ne Hfresh.
  unfold chunkHandler. rewrite Hparse, Hid, Hidx. simpl.
  apply String.eqb_neq in Hid_ne, Hidx_ne. rewrite Hid_ne, Hidx_ne. simpl.
  destruct (formFiles r !! "chunk") as [[hdr data]|]; [|done].
  simpl in Hfile. injection Hfile as ->.
  apply dirLookup_None in Hfresh.
  unfold sessionDir in *. unfold writeChunk, os_MkdirAll.
  destruct (uploads (fs w) !! filepath_Join uploadsDir uploadId) as [d|] eqn:Hd; simpl in *.
  - rewrite Hd, Hfresh. simpl. by rewrite lookup_insert_eq.
  - rewrite lookup_insert_eq. simpl. by rewrite lookup_insert_eq.
Qed.

Lemma Atoi_nonempty (index : string) : is_Some (strconv_Atoi index) -> index <> "".
Proof. intros [n Hn] ->. done. Qed.

(** The listing of a session after the uploads [rs]: one regular file per
    upload, next to what was there. *)
Lemma receiveChunks_listing (uploadId : string) (rs : list Request)
    (ups : list (string * list byte)) (w : World) :
  uploadId <> "" ->
  Forall2 (carries uploadId) rs ups ->
  Forall (fun u => u.1 <> "") ups ->
  NoDup (map (fun u => "chunk_" +:+ u.1) ups) ->
  (forall u, u ∈ ups -> "chunk_" +:+ u.1 ∉ map fst (sessionDir w uploadId)) ->
  sessionDir (receiveChunks w rs) uploadId
  ≡ₚ map (fun u => ("chunk_" +:+ u.1, Regular u.2)) ups ++ sessionDir w uploadId /\
  (ups <> [] ->
   is_Some (uploads (fs (receiveChunks w rs)) !! filepath_Join uploadsDir uploadId)) /\
  tempWritable (fs (receiveChunks w rs)) = tempWritable (fs w).
Proof.
  intros Hid Hrs. revert w.
  induction Hrs as [|r u rs ups Hr Hrs IH]; intros w Hne Hnd Hfresh; [done|].
  apply Forall_cons in Hne as [Hu Hne]. simpl in Hnd.
  apply NoDup_cons in Hnd as [Hu_new Hnd].
  destruct (chunkHandler_stores w uploadId r u Hr Hid Hu) as [Hstep Hw].
  { apply Hfresh, list_elem_of_here. }
  assert (Hdir : sessionDir (chunkHandler w r).1 uploadId
                 = dirPut ("chunk_" +:+ u.1) (Regular u.2) (sessionDir w uploadId)).
  { unfold sessionDir at 1. by rewrite Hstep. }
  assert (Hperm : sessionDir (chunkHandler w r).1 uploadId
                  ≡ₚ ("chunk_" +:+ u.1, Regular u.2) :: sessionDir w uploadId).
  { rewrite Hdir. apply dirPut_perm, Hfresh, list_elem_of_here. }
  change (receiveChunks w (r :: rs)) with (receiveChunks (chunkHandler w r).1 rs).
  destruct (IH (chunkHandler w r).1 Hne Hnd) as (Hlist & Hsome & Htw).
  { intros v Hv. rewrite Hperm. simpl. apply not_elem_of_cons. split.
    - intros Heq. apply Hu_new. rewrite <- Heq.
      apply list_elem_of_In, in_map_iff. exists v.
      split; [done | by apply list_elem_of_In].
    - apply Hfresh. by apply list_elem_of_further. }
  split; [|split].
  - rewrite Hlist, Hperm. simpl. by rewrite <- Permutation_middle.
  - intros _. destruct ups as [|v ups'].
    + inversion Hrs. subst. simpl. rewrite Hstep. by eexists.
    + by apply Hsome.
  - by rewrite Htw.
Qed.

(** ** Order of assembly *)

Lemma NoDup_map_elem {A B : Type} (f : A -> B) (l : list A) (x y : A) :
  NoDup (map f l) -> x ∈ l -> y ∈ l -> f x = f y -> x = y.
Proof.
  induction l as [|z l IH]; intros Hnd Hx Hy Heq; [by apply elem_of_nil in Hx|].
  simpl in Hnd. apply NoDup_cons in Hnd as [Hz Hnd].
  assert (Hin : forall v, v ∈ l -> f v ∈ map f l).
  { intros v Hv. apply list_elem_of_In, in_map. by apply list_elem_of_In. }
  apply elem_of_cons in Hx as [->|Hx]; apply elem_of_cons in Hy as [->|Hy].
  - done.
  - exfalso. apply Hz. rewrite Heq. by apply Hin.
  - exfalso. apply Hz. rewrite <- Heq. by apply Hin.
  - by apply IH.
Qed.

Lemma Sorted_map {A B : Type} (f : A -> B) (R : B -> B -> Prop) (l : list A) :
  Sorted (fun a b => R (f a) (f b)) l -> Sorted R (map f l).
Proof.
  induction 1 as [|x l Hs IH Hhd]; simpl; [constructor|].
  constructor; [done|]. destruct Hhd; simpl; by constructor.
Qed.

Lemma filter_all {A : Type} (f : A -> bool) (l : list A) :
  Forall (fun x => f x = true) l -> List.filter f l = l.
Proof.
  induction 1 as [|x l Hx _ IH]; simpl; [done|]. by rewrite Hx, IH.
Qed.

(** Two listings of the same chunk names, both ascending by index, are the
    same list when no two names share an index. *)
Lemma ascending_perm_unique (l1 l2 : list string) :
  NoDup (map chunkIndex l1) ->
  Sorted chunkIndexLe l1 -> Sorted chunkIndexLe l2 -> l1 ≡ₚ l2 -> l1 = l2.
Proof.
  intros Hnd Hs1 Hs2 Hperm.
  apply (Sorted_unique_strong chunkIndexLe); try done.
  intros x1 x2 Hx1 Hx2 H12 H21.
  apply (NoDup_map_elem chunkIndex l1); [done..| by rewrite Hperm |].
  unfold chunkIndexLe in *.
  destruct (chunkIndex x1), (chunkIndex x2); try done. f_equal. lia.
Qed.

(** Whatever algorithm sorts the names: when the indices parse and differ,
    every ascending arrangement of the chunks is the one [sort_Slice]
    returns. *)
Lemma sort_Slice_determined (chunks sorted : list string) :
  Forall parseable chunks ->
  NoDup (map chunkIndex chunks) ->
  sorted ≡ₚ chunks -> Sorted chunkIndexLe sorted ->
  sorted = sort_Slice chunkLess chunks.
Proof.
  intros Hp Hnd Hperm Hs. symmetry. apply ascending_perm_unique.
  - by rewrite sort_Slice_perm.
  - by apply sort_Slice_ascending.
  - done.
  - by rewrite sort_Slice_perm.
Qed.

Lemma NoDup_map_weaken {A B C : Type} (g : A -> B) (h : B -> C) (l : list A) :
  NoDup (map (fun x => h (g x)) l) -> NoDup (map g l).
Proof.
  induction l as [|x l IH]; simpl; intros Hnd; [constructor|].
  apply NoDup_cons in Hnd as [Hx Hnd]. apply NoDup_cons. split; [|by apply IH].
  intros Hin. apply Hx.
  apply list_elem_of_In, in_map_iff in Hin as [y [Hy Hin]].
  apply list_elem_of_In, in_map_iff. exists y. by rewrite Hy.
Qed.

Lemma chunkIndexLe_chunk (a b : string) :
  chunkIndexLe ("chunk_" +:+ a) ("chunk_" +:+ b) <-> indexLe a b.
Proof. unfold chunkIndexLe, indexLe. by rewrite !chunkIndex_chunk. Qed.

(** C3.  A session is filled by chunk uploads whose indices parse to
    distinct integers, in any arrival order; assembly then succeeds and the
    artifact is the payloads in ascending order of index. *)
Theorem assemble_sorts_by_index
    (uploadId uuid filename : string) (w : World)
    (rs : list Request) (ups srt : list (string * list byte)) :
  uploadId <> "" ->
  os_ReadDir (fs w) (filepath_Join uploadsDir uploadId) = None ->
  tempWritable (fs w) = true ->
  Forall2 (carries uploadId) rs ups ->
  ups <> [] ->
  Forall (fun u => is_Some (strconv_Atoi u.1)) ups ->
  NoDup (map (fun u => strconv_Atoi u.1) ups) ->
  srt ≡ₚ ups ->
  Sorted (fun u v => indexLe u.1 v.1) srt ->
  exists fs',
    assembleChunks (fs (receiveChunks w rs)) uuid (filepath_Join uploadsDir uploadId) filename
    = (fs', Ok (finalPathOf uuid filename)) /\
    temp fs' !! finalPathOf uuid filename = Some (concat (map snd srt)).
Proof.
  intros Hid Hfresh Hw Hrs Hne Hparse Hdistinct Hperm Hsorted.
  set (nameOf := fun u : string * list byte => "chunk_" +:+ u.1).
  set (entryOf := fun u : string * list byte => ("chunk_" +:+ u.1, Regular u.2)).
  set (w' := receiveChunks w rs).
  assert (Hindex : map (fun u => chunkIndex (nameOf u)) ups
                   = map (fun u => strconv_Atoi u.1) ups).
  { apply map_ext. intros u. apply chunkIndex_chunk. }
  assert (Hnames : NoDup (map nameOf ups)).
  { apply (NoDup_map_weaken nameOf chunkIndex). by rewrite Hindex. }
  assert (Hempty : sessionDir w uploadId = []).
  { unfold sessionDir. unfold os_ReadDir in Hfresh. by rewrite Hfresh. }
  destruct (receiveChunks_listing uploadId rs ups w) as (Hlist & Hsome & Htw); try done.
  { eapply Forall_impl; [exact Hparse|]. intros u. apply Atoi_nonempty. }
  { intros u _. rewrite Hempty. apply not_elem_of_nil. }
  fold w' in Hlist, Hsome, Htw.
  rewrite Hempty, app_nil_r in Hlist. fold entryOf in Hlist.
  destruct (Hsome Hne) as [d Hd].
  assert (Hdd : sessionDir w' uploadId = d) by (unfold sessionDir; by rewrite Hd).
  rewrite Hdd in Hlist.
  assert (Hfst : map fst d ≡ₚ map nameOf ups).
  { rewrite Hlist, map_map. done. }
  assert (Hnd : NoDup (map fst d)) by by rewrite Hfst.
  assert (Hentry : forall e, e ∈ d -> exists u, u ∈ ups /\ e = entryOf u).
  { intros e He. rewrite Hlist in He.
    apply list_elem_of_In, in_map_iff in He as [u [Hu Hin]].
    exists u. by rewrite list_elem_of_In. }
  assert (Hreadable : readable d).
  { apply Forall_forall. intros e He _.
    destruct (Hentry e He) as [u [_ ->]]. by eexists. }
  destruct (assembleChunks_readable (fs w') uuid (filepath_Join uploadsDir uploadId)
              filename d) as (fs' & Hrun & _ & Hbytes); try done.
  { by rewrite Htw. }
  exists fs'. split; [done|]. rewrite Hbytes. f_equal. f_equal.
  assert (Hall : List.filter isChunkEntry d = d).
  { apply filter_all, Forall_forall. intros e He.
    destruct (Hentry e He) as [u [_ ->]].
    unfold isChunkEntry, entryOf. simpl. apply HasPrefix_chunk. }
  assert (Hparsed : Forall parseable (map fst d)).
  { apply Forall_forall. intros name Hin. rewrite Hfst in Hin.
    apply list_elem_of_In, in_map_iff in Hin as [u [<- Hu]].
    unfold parseable, nameOf. rewrite chunkIndex_chunk.
    rewrite Forall_forall in Hparse. by apply Hparse, list_elem_of_In. }
  assert (Horder : chunkNames d = map nameOf srt).
  { unfold chunkNames. rewrite Hall.
    apply ascending_perm_unique.
    - rewrite sort_Slice_perm, Hfst, map_map. by rewrite Hindex.
    - by apply sort_Slice_ascending.
    - apply Sorted_map.
      apply (Sorted_on (fun _ => True) (fun u v => indexLe u.1 v.1)); [|by apply Forall_true|done].
      intros u v _ _ Huv. by apply chunkIndexLe_chunk.
    - by rewrite sort_Slice_perm, Hfst, Hperm. }
  rewrite Horder, map_map. apply map_ext_in. intros u Hu.
  unfold chunkData. rewrite (dirLookup_elem d (nameOf u) (Regular u.2)); [done..|].
  rewrite Hlist. apply list_elem_of_In, in_map_iff. exists u.
  split; [done|]. eapply Permutation_in; [exact Hperm | exact Hu].
Qed.

(** The three uploads of scenario 1: indices 1, 0, 2 with payloads "B", "A",
    "C" assemble to "ABC". *)
Lemma assemble_sorts_by_index_witness :
  exists fs',
    assembleChunks
      (fs (receiveChunks emptyWorld
             [chunkRequest "s" "1" (list_byte_of_string "B");
              chunkRequest "s" "0" (list_byte_of_string "A");
              chunkRequest "s" "2" (list_byte_of_string "C")]))
      "u" (filepath_Join uploadsDir "s") "f.bin"
    = (fs', Ok (finalPathOf "u" "f.bin")) /\
    temp fs' !! finalPathOf "u" "f.bin" = Some (list_byte_of_string "ABC").
Proof.
  apply (assemble_sorts_by_index "s" "u" "f.bin" emptyWorld
           [chunkRequest "s" "1" (list_byte_of_string "B");
            chunkRequest "s" "0" (list_byte_of_string "A");
            chunkRequest "s" "2" (list_byte_of_string "C")]
           [("1", list_byte_of_string "B"); ("0", list_byte_of_string "A");
            ("2", list_byte_of_string "C")]
           [("0", list_byte_of_string "A"); ("1", list_byte_of_string "B");
            ("2", list_byte_of_string "C")]).
  - discriminate.
  - reflexivity.
  - reflexivity.
  - repeat constructor.
  - discriminate.
  - repeat constructor; by eexists.
  - apply (bool_decide_unpack _). vm_compute. exact I.
  - etransitivity; [apply perm_swap|]. reflexivity.
  - repeat constructor; vm_compute; discriminate.
Defined.

(** ** Entries that are not chunks *)

Lemma filter_idem {A : Type} (f : A -> bool) (l : list A) :
  List.filter f (List.filter f l) = List.filter f l.
Proof.
  induction l as [|x l IH]; simpl; [done|].
  destruct (f x) eqn:E; simpl; [|done]. by rewrite E, IH.
Qed.

Lemma NoDup_map_filter {A B : Type} (g : A -> B) (f : A -> bool) (l : list A) :
  NoDup (map g l) -> NoDup (map g (List.filter f l)).
Proof.
  induction l as [|x l IH]; simpl; intros Hnd; [constructor|].
  apply NoDup_cons in Hnd as [Hx Hnd].
  destruct (f x); simpl; [|by apply IH].
  apply NoDup_cons. split; [|by apply IH].
  intros Hin. apply Hx.
  apply list_elem_of_In, in_map_iff in Hin as [y [Hy Hin]].
  apply filter_In in Hin as [Hin _].
  apply list_elem_of_In, in_map_iff. by exists y.
Qed.

Lemma dirLookup_filter (entries : dir) (name : string) :
  NoDup (map fst entries) ->
  name ∈ chunkNames entries ->
  dirLookup (List.filter isChunkEntry entries) name = dirLookup entries name.
Proof.
  intros Hnd Hin. apply chunkNames_elem in Hin as [n [Hin Hc]].
  rewrite (dirLookup_elem entries name n) by done.
  apply dirLookup_elem; [by apply NoDup_map_filter|].
  apply list_elem_of_In, filter_In. by rewrite <- list_elem_of_In.
Qed.

Lemma copyChunks_filter (entries : dir) (names : list string) (written : list byte) :
  NoDup (map fst entries) ->
  Forall (fun name => name ∈ chunkNames entries) names ->
  copyChunks (List.filter isChunkEntry entries) names written
  = copyChunks entries names written.
Proof.
  intros Hnd Hall. revert written.
  induction Hall as [|name names Hin _ IH]; intros written; simpl; [done|].
  rewrite dirLookup_filter by done.
  destruct (dirLookup entries name) as [[]|]; done.
Qed.

Lemma chunkNames_filter (entries : dir) :
  chunkNames (List.filter isChunkEntry entries) = chunkNames entries.
Proof. unfold chunkNames. by rewrite filter_idem. Qed.

(** C10.  Only the entries of the session directory that are not directories
    and whose name starts with ["chunk_"] take part in assembly: the result
    and the files of [tempDir] are those of the same session with every
    other entry removed, whatever those entries are. *)
Theorem assemble_ignores_other_entries
    (fs : FS) (uuid chunkDir filename : string) (entries : dir) :
  os_ReadDir fs chunkDir = Some entries ->
  NoDup (map fst entries) ->
  let stripped :=
    mkFS (<[chunkDir := List.filter isChunkEntry entries]> (uploads fs))
         (temp fs) (tempWritable fs) in
  (assembleChunks fs uuid chunkDir filename).2
  = (assembleChunks stripped uuid chunkDir filename).2 /\
  temp (assembleChunks fs uuid chunkDir filename).1
  = temp (assembleChunks stripped uuid chunkDir filename).1 /\
  (forall name,
      name ∈ chunkNames entries <->
      exists n, (name, n) ∈ entries /\ IsDir n = false /\
                strings_HasPrefix name "chunk_" = true).
Proof.
  intros Hdir Hnd stripped.
  assert (Hcopy : copyChunks (List.filter isChunkEntry entries)
                    (chunkNames (List.filter isChunkEntry entries)) []
                  = copyChunks entries (chunkNames entries) []).
  { rewrite chunkNames_filter. apply copyChunks_filter; [done|].
    by apply Forall_forall. }
  split; [|split].
  - unfold assembleChunks, os_ReadDir, os_Create. subst stripped. simpl.
    unfold os_ReadDir in Hdir. rewrite Hdir, lookup_insert_eq, Hcopy.
    destruct (tempWritable fs); [|done].
    by destruct (copyChunks entries (chunkNames entries) []) as [written [e|]].
  - unfold assembleChunks, os_ReadDir, os_Create. subst stripped. simpl.
    unfold os_ReadDir in Hdir. rewrite Hdir, lookup_insert_eq, Hcopy.
    destruct (tempWritable fs); [|done].
    by destruct (copyChunks entries (chunkNames entries) []) as [written [e|]].
  - intros name. rewrite chunkNames_elem. unfold isChunkEntry. simpl.
    split; intros [n [Hin Hc]]; exists n; (split; [done|]).
    + apply andb_prop in Hc as [Hd Hp]. split; [|done]. by destruct (IsDir n).
    + destruct Hc as [-> ->]. done.
Qed.

Lemma assemble_ignores_other_entries_witness :
  let entries : dir :=
    [("chunk_0", Regular (list_byte_of_string "A"));
     ("chunk_9", Directory);
     ("notes.txt", Regular (list_byte_of_string "not a chunk"))] in
  let fs := mkFS {["/tmp/uploads/s" := entries]} ∅ true in
  (assembleChunks fs "u" "/tmp/uploads/s" "f.bin").2 = Ok (finalPathOf "u" "f.bin") /\
  temp (assembleChunks fs "u" "/tmp/uploads/s" "f.bin").1 !! finalPathOf "u" "f.bin"
  = Some (list_byte_of_string "A").
Proof.
  intros entries fs.
  destruct (assemble_ignores_other_entries fs "u" "/tmp/uploads/s" "f.bin" entries)
    as (Hres & Htemp & _).
  - reflexivity.
  - apply (bool_decide_unpack _). vm_compute. exact I.
  - rewrite Hres, Htemp. split; vm_compute; reflexivity.
Defined.

(** ** Sessions without chunks *)

(** A session whose directory is missing fails with the no-chunks error and
    leaves storage as it was. *)
Lemma assemble_missing_session (fs : FS) (uuid chunkDir filename : string) :
  os_ReadDir fs chunkDir = None ->
  assembleChunks fs uuid chunkDir filename = (fs, Err (NoChunksFound chunkDir)).
Proof. intros Hdir. unfold assembleChunks. by rewrite Hdir. Qed.

(** A session directory without a single chunk entry is assembled all the
    same: the copy loop has nothing to do and an empty artifact comes back
    as a success. *)
Lemma assemble_without_chunks (fs : FS) (uuid chunkDir filename : string) (entries : dir) :
  os_ReadDir fs chunkDir = Some entries ->
  Forall (fun e => isChunkEntry e = false) entries ->
  tempWritable fs = true ->
  (assembleChunks fs uuid chunkDir filename).2 = Ok (finalPathOf uuid filename) /\
  temp (assembleChunks fs uuid chunkDir filename).1 !! finalPathOf uuid filename = Some [].
Proof.
  intros Hdir Hnone Hw.
  assert (Hchunks : chunkNames entries = []).
  { unfold chunkNames.
    assert (Hfilter : List.filter isChunkEntry entries = []).
    { clear Hdir. induction Hnone as [|e rest He _ IH]; [done|].
      cbn [List.filter]. by rewrite He. }
    by rewrite Hfilter. }
  unfold assembleChunks, os_Create. rewrite Hdir, Hw, Hchunks. simpl.
  split; [done|]. by rewrite lookup_insert_eq.
Qed.

(** C4 at its failing input: the session directory exists and holds one
    file that is not a chunk.  No error is raised; the caller gets the path
    of an empty artifact. *)
Theorem assemble_empty_session_succeeds :
  let fs := mkFS {[filepath_Join uploadsDir "s" := [("notes.txt", Regular (list_byte_of_string "x"))]]}
                 ∅ true in
  assembleChunks fs "u" (filepath_Join uploadsDir "s") "f.bin"
  = (mkFS (uploads fs) {[finalPathOf "u" "f.bin" := []]} true, Ok (finalPathOf "u" "f.bin")) /\
  (assembleChunks (mkFS {[filepath_Join uploadsDir "s" := []]} ∅ true)
                  "u" (filepath_Join uploadsDir "s") "f.bin").2
  = Ok (finalPathOf "u" "f.bin").
Proof.
  split.
  - unfold assembleChunks, os_ReadDir, os_Create. simpl.
    rewrite lookup_singleton_eq. simpl. unfold writeTemp. simpl.
    by rewrite insert_insert_eq, insert_empty.
  - unfold assembleChunks, os_ReadDir, os_Create. simpl.
    by rewrite lookup_singleton_eq.
Qed.

(** ** Forwarder *)

Lemma append_empty_r (a : string) : a +:+ "" = a.
Proof. induction a as [|x a IH]; [done|]. by rewrite append_cons, IH. Qed.

Lemma newEvents_app (w w' : World) (evs : list Event) :
  trace w' = trace w ++ evs -> newEvents w w' = evs.
Proof. intros H. unfold newEvents. rewrite H. apply drop_app_length. Qed.

Lemma newEvents_same (w w' : World) : trace w' = trace w -> newEvents w w' = [].
Proof. intros H. apply newEvents_app. by rewrite app_nil_r. Qed.

(** The message of a bad-status error holds the status code and the reply. *)
Lemma BadStatus_message (code : Z) (respBody : string) :
  contains (itoa code) (ForwardError_Error (BadStatus code respBody)) /\
  contains respBody (ForwardError_Error (BadStatus code respBody)).
Proof.
  split.
  - exists "upload failed with status ", (": " +:+ respBody). reflexivity.
  - exists ("upload failed with status " +:+ itoa code +:+ ": "), "".
    simpl. by rewrite append_empty_r, !append_assoc.
Qed.

(** The body streamed to the backend depends on the stored file only. *)
Lemma multipartBody_fs (w w' : World) (destination filePath filename userhash timeVal : string) :
  fs w' = fs w ->
  multipartBody w' destination filePath filename userhash timeVal
  = multipartBody w destination filePath filename userhash timeVal.
Proof. intros H. unfold multipartBody. by rewrite H. Qed.

(** What a forward does to the state: nothing but, at most, one POST. *)
Lemma forward_effects (env : Env) (w : World)
    (destination filePath filename userhash timeVal : string) :
  let r := forwardToDestination env w destination filePath filename userhash timeVal in
  fs r.1 = fs w /\ db r.1 = db w /\
  ((trace r.1 = trace w /\ exists e, r.2 = Err e /\
                                     forall code respBody, e <> BadStatus code respBody) \/
   exists url body,
     urlMap destination = Some url /\
     multipartBody w destination filePath filename userhash timeVal = Ok body /\
     trace r.1 = trace w ++ [Posted url body]).
Proof.
  unfold forwardToDestination.
  destruct (urlMap destination) as [url|]; simpl.
  2:{ repeat split; try done. left. split; [done|]. by eexists. }
  destruct (multipartBody w destination filePath filename userhash timeVal) as [body|cause]; simpl.
  2:{ repeat split; try done. left. split; [done|]. by eexists. }
  assert (Hposted : forall (r : World * res ForwardError string),
             r.1 = emit w (Posted url body) ->
             fs r.1 = fs w /\ db r.1 = db w /\
             ((trace r.1 = trace w /\ exists e, r.2 = Err e /\
                 forall code respBody, e <> BadStatus code respBody) \/
              exists url0 body0,
                Some url = Some url0 /\ @Ok string _ body = Ok body0 /\
                trace r.1 = trace w ++ [Posted url0 body0])).
  { intros r ->. repeat split. right. by exists url, body. }
  destruct (backend env url body) as [cause|cause|code respBody];
    [by apply (Hposted (_, _))..|].
  destruct (code =? 200)%Z; cbn [negb]; [|by apply (Hposted (_, _))].
  destruct (String.eqb destination "pomf"); [|by apply (Hposted (_, _))].
  destruct (json_Unmarshal env respBody) as [result|]; [|by apply (Hposted (_, _))].
  destruct (Success result); cbn [negb]; [|by apply (Hposted (_, _))].
  destruct (Files result); by apply (Hposted (_, _)).
Qed.

(** The outcome of a forward is decided by the stored file and the
    environment; the trace and the cache play no part. *)
Lemma forward_result_fs (env : Env) (w w' : World)
    (destination filePath filename userhash timeVal : string) :
  fs w' = fs w ->
  (forwardToDestination env w' destination filePath filename userhash timeVal).2
  = (forwardToDestination env w destination filePath filename userhash timeVal).2.
Proof.
  intros Hfs. unfold forwardToDestination.
  rewrite (multipartBody_fs w w') by done.
  destruct (urlMap destination) as [url|]; [|done].
  destruct (multipartBody w destination filePath filename userhash timeVal) as [body|]; [|done].
  destruct (backend env url body) as [| |code respBody]; try done.
  destruct (negb (code =? 200)%Z); [done|].
  destruct (String.eqb destination "pomf"); [|done].
  destruct (json_Unmarshal env respBody) as [result|]; [|done].
  destruct (negb (Success result)); [done|]. by destruct (Files result).
Qed.

(** The reply of the backend decides the outcome. *)
Lemma forward_responded (env : Env) (w : World)
    (destination filePath filename userhash timeVal url : string)
    (body : MultipartBody) (code : Z) (respBody : string) :
  urlMap destination = Some url ->
  multipartBody w destination filePath filename userhash timeVal = Ok body ->
  backend env url body = Responded code respBody ->
  (code <> 200%Z ->
   forwardToDestination env w destination filePath filename userhash timeVal
   = (emit w (Posted url body), Err (BadStatus code respBody))) /\
  (forall u,
      (forwardToDestination env w destination filePath filename userhash timeVal).2 = Ok u ->
      code = 200%Z).
Proof.
  intros Hurl Hbody Hresp. unfold forwardToDestination.
  rewrite Hurl, Hbody, Hresp. split.
  - intros Hcode. apply Z.eqb_neq in Hcode. by rewrite Hcode.
  - intros u. destruct (code =? 200)%Z eqn:Hcode; simpl; [|done].
    intros _. by apply Z.eqb_eq.
Qed.

Lemma multipartBody_file (w : World) (destination filePath filename userhash timeVal : string)
    (body : MultipartBody) :
  multipartBody w destination filePath filename userhash timeVal = Ok body ->
  temp (fs w) !! filePath = Some (fileData body).
Proof.
  unfold multipartBody. destruct (temp (fs w) !! filePath) as [data|]; [|done].
  destruct (String.eqb destination "pomf"); [by intros [= <-]|].
  destruct (String.eqb destination "catbox" || String.eqb destination "litterbox");
    [by intros [= <-] | done].
Qed.

(** A forward whose body can be built always reaches the backend. *)
Lemma forward_posts (env : Env) (w : World)
    (destination filePath filename userhash timeVal url : string) (body : MultipartBody) :
  urlMap destination = Some url ->
  multipartBody w destination filePath filename userhash timeVal = Ok body ->
  (forwardToDestination env w destination filePath filename userhash timeVal).1
  = emit w (Posted url body).
Proof.
  intros Hurl Hbody. unfold forwardToDestination. rewrite Hurl, Hbody.
  destruct (backend env url body) as [| |code respBody]; try done.
  destruct (negb (code =? 200)%Z); [done|].
  destruct (String.eqb destination "pomf"); [|done].
  destruct (json_Unmarshal env respBody) as [result|]; [|done].
  destruct (negb (Success result)); [done|]. by destruct (Files result).
Qed.

(** ** Pipeline *)

Ltac events := apply newEvents_app; simpl; rewrite <- ?app_assoc; reflexivity.

(** The ephemeral backend: the pipeline is the forward and nothing else. *)
Lemma pipeline_litterbox (env : Env) (w : World) (filePath filename userhash timeVal : string) :
  processAndForwardFile env w filePath filename userhash "litterbox" timeVal
  = let r := forwardToDestination env w "litterbox" filePath filename userhash timeVal in
    (r.1, match r.2 with
          | Err err => http_Error (UploadFailed err) StatusInternalServerError
          | Ok url => json_Encode (JsonUrl url)
          end).
Proof.
  unfold processAndForwardFile. simpl.
  by destruct (forwardToDestination env w "litterbox" filePath filename userhash timeVal)
    as [w1 [url|err]].
Qed.

(** A cacheable backend on a cache miss: hash, lookup, forward, and the
    upsert when the forward gave a URL. *)
Lemma pipeline_miss (env : Env) (w : World)
    (filePath filename userhash destination timeVal : string) (data : list byte) :
  destination <> "litterbox" ->
  temp (fs w) !! filePath = Some data ->
  queryFails env = false ->
  cachedURL destination (selectRow (db w) (sha256_hex env data)) = "" ->
  processAndForwardFile env w filePath filename userhash destination timeVal
  = let hash := sha256_hex env data in
    let w2 := emit (emit w (Hashed filePath)) (CacheLookup hash) in
    let r := forwardToDestination env w2 destination filePath filename userhash timeVal in
    match r.2 with
    | Err err => (r.1, http_Error (UploadFailed err) StatusInternalServerError)
    | Ok url => ((storeUrl env r.1 hash destination url).1, json_Encode (JsonUrl url))
    end.
Proof.
  intros Hdest Hfile Hquery Hmiss. apply String.eqb_neq in Hdest.
  unfold processAndForwardFile, calculateFileHash, GetURLsByHash.
  rewrite Hdest, Hfile, Hquery. simpl. rewrite Hmiss. simpl.
  destruct (forwardToDestination env _ destination filePath filename userhash timeVal)
    as [w3 [url|err]]; simpl; [|done].
  by destruct (storeUrl env w3 (sha256_hex env data) destination url).
Qed.

Lemma newEvents_trace (a a' b b' : World) :
  trace a = trace a' -> trace b = trace b' -> newEvents a b = newEvents a' b'.
Proof. intros Ha Hb. unfold newEvents. by rewrite Ha, Hb. Qed.

(** What the pipeline adds to the trace for the ephemeral backend: nothing
    when the artifact cannot be read, else one POST with the [time] field. *)
Lemma pipeline_litterbox_events (env : Env) (w : World)
    (filePath filename userhash timeVal : string) :
  let r := processAndForwardFile env w filePath filename userhash "litterbox" timeVal in
  (temp (fs w) !! filePath = None /\ newEvents w r.1 = []) \/
  exists data,
    temp (fs w) !! filePath = Some data /\
    newEvents w r.1
    = [Posted "https://litterbox.catbox.moe/resources/internals/api.php"
              (mkBody [("reqtype", "fileupload"); ("time", timeVal)]
                      "fileToUpload" filename data)].
Proof.
  intros r. subst r. rewrite pipeline_litterbox. cbn zeta. cbn [fst].
  destruct (temp (fs w) !! filePath) as [data|] eqn:Hfile.
  - right. exists data. split; [done|].
    rewrite (forward_posts env w "litterbox" filePath filename userhash timeVal
               "https://litterbox.catbox.moe/resources/internals/api.php"
               (mkBody [("reqtype", "fileupload"); ("time", timeVal)]
                       "fileToUpload" filename data));
      [events | done | unfold multipartBody; by rewrite Hfile].
  - left. split; [done|]. apply newEvents_same.
    unfold forwardToDestination, multipartBody. by rewrite Hfile.
Qed.

(** C5.  An upload to the ephemeral backend computes no fingerprint and
    reads and writes no cache record: the request leaves the cache table as
    it was and adds nothing to the trace but POSTs; and it is forwarded
    afresh: when the artifact is there, the one event of the request is the
    POST of the file to litterbox, whatever the table holds for that
    content. *)
Theorem litterbox_bypasses_cache (env : Env) (w : World)
    (filePath filename userhash timeVal : string) :
  let r := processAndForwardFile env w filePath filename userhash "litterbox" timeVal in
  db r.1 = db w /\
  Forall isPost (newEvents w r.1) /\
  (forall data,
      temp (fs w) !! filePath = Some data ->
      newEvents w r.1
      = [Posted "https://litterbox.catbox.moe/resources/internals/api.php"
                (mkBody [("reqtype", "fileupload"); ("time", timeVal)]
                        "fileToUpload" filename data)]).
Proof.
  intros r.
  pose proof (pipeline_litterbox_events env w filePath filename userhash timeVal) as Hev.
  cbn zeta in Hev. fold r in Hev.
  split; [|split].
  - subst r. rewrite pipeline_litterbox. cbn zeta. cbn [fst].
    by destruct (forward_effects env w "litterbox" filePath filename userhash timeVal)
      as (_ & Hdb & _).
  - destruct Hev as [[_ Hev] | [data [_ Hev]]]; rewrite Hev; [constructor|].
    repeat constructor. by eexists _, _.
  - intros data Hfile.
    destruct Hev as [[Hnone _] | [data' [Hfile' Hev]]]; [congruence|].
    rewrite Hfile in Hfile'. by injection Hfile' as <-.
Qed.

Lemma litterbox_bypasses_cache_witness :
  let env := exampleEnv (Responded 200 "https://litter.catbox.moe/xyz.bin") false in
  let r := processAndForwardFile env exampleWorld "/tmp/temp/a.bin" "a.bin" "" "litterbox" "1h" in
  db exampleWorld !! "0f1e2d" = Some (mkRow (Some "https://files.catbox.moe/abc.bin") None) /\
  db r.1 = db exampleWorld /\
  newEvents exampleWorld r.1
  = [Posted "https://litterbox.catbox.moe/resources/internals/api.php"
            (mkBody [("reqtype", "fileupload"); ("time", "1h")]
                    "fileToUpload" "a.bin" (list_byte_of_string "A"))].
Proof.
  intros env r.
  destruct (litterbox_bypasses_cache env exampleWorld "/tmp/temp/a.bin" "a.bin" "" "1h")
    as (Hdb & _ & Hnew).
  split; [reflexivity|]. split; [exact Hdb|].
  apply (Hnew (list_byte_of_string "A")). reflexivity.
Defined.

(** ** Failed forwards *)

Ltac not_in_events :=
  let H := fresh in
  intros H; simpl in H; repeat (destruct H as [H|H]; [discriminate H|]); destruct H.

(** C6.  A reply whose status is not 2xx makes the forward fail with an
    error whose message holds the status code and the reply text; the
    request that met it leaves the cache table as it was, attempts no
    upsert, and answers with that error. *)
Theorem forward_rejects_non_2xx (env : Env) (w : World)
    (destination filePath filename userhash timeVal url : string)
    (body : MultipartBody) (code : Z) (respBody : string) :
  urlMap destination = Some url ->
  multipartBody w destination filePath filename userhash timeVal = Ok body ->
  backend env url body = Responded code respBody ->
  ~ (200 <= code < 300)%Z ->
  (forwardToDestination env w destination filePath filename userhash timeVal).2
  = Err (BadStatus code respBody) /\
  contains (itoa code) (ForwardError_Error (BadStatus code respBody)) /\
  contains respBody (ForwardError_Error (BadStatus code respBody)) /\
  let r := processAndForwardFile env w filePath filename userhash destination timeVal in
  db r.1 = db w /\
  (forall hash d u, ~ In (CacheUpsert hash d u) (newEvents w r.1)) /\
  (In (Posted url body) (newEvents w r.1) ->
   r.2 = http_Error (UploadFailed (BadStatus code respBody)) StatusInternalServerError).
Proof.
  intros Hurl Hbody Hresp Hcode.
  assert (Hne : code <> 200%Z) by lia.
  destruct (forward_responded env w destination filePath filename userhash timeVal
              url body code respBody Hurl Hbody Hresp) as [Hfail _].
  split; [by rewrite (Hfail Hne)|].
  split; [apply BadStatus_message|]. split; [apply BadStatus_message|].
  intros r. subst r.
  destruct (String.eqb destination "litterbox") eqn:Hd.
  - apply String.eqb_eq in Hd. subst destination.
    rewrite pipeline_litterbox. cbn zeta. rewrite (Hfail Hne). cbn [fst snd].
    assert (Hnew : newEvents w (emit w (Posted url body)) = [Posted url body]) by events.
    rewrite Hnew. split; [done|]. split; [|done]. intros hash d u. not_in_events.
  - unfold processAndForwardFile, calculateFileHash, GetURLsByHash. rewrite Hd.
    rewrite (multipartBody_file _ _ _ _ _ _ _ Hbody).
    set (hash := sha256_hex env (fileData body)).
    set (w1 := emit w (Hashed filePath)).
    set (w2 := emit w1 (CacheLookup hash)).
    assert (Hnew2 : newEvents w w2 = [Hashed filePath; CacheLookup hash]) by events.
    destruct (queryFails env).
    { cbn [fst snd]. rewrite Hnew2. split; [done|].
      split; [intros h d u|]; not_in_events. }
    destruct (negb (String.eqb (cachedURL destination (selectRow (db w1) hash)) "")).
    { cbn [fst snd]. rewrite Hnew2. split; [done|].
      split; [intros h d u|]; not_in_events. }
    destruct (forward_responded env w2 destination filePath filename userhash timeVal
                url body code respBody Hurl) as [Hfail2 _]; [|done|].
    { by rewrite (multipartBody_fs w w2). }
    rewrite (Hfail2 Hne). cbn [fst snd].
    assert (Hnew3 : newEvents w (emit w2 (Posted url body))
                    = [Hashed filePath; CacheLookup hash; Posted url body]) by events.
    rewrite Hnew3. split; [done|]. split; [|done]. intros h d u. not_in_events.
Qed.

Lemma forward_rejects_non_2xx_witness :
  let env := exampleEnv (Responded 503 "Service Unavailable") false in
  let w := mkWorld (fs exampleWorld) ∅ [] in
  (forwardToDestination env w "catbox" "/tmp/temp/a.bin" "a.bin" "" "1h").2
  = Err (BadStatus 503 "Service Unavailable") /\
  ForwardError_Error (BadStatus 503 "Service Unavailable")
  = "upload failed with status 503: Service Unavailable" /\
  db (processAndForwardFile env w "/tmp/temp/a.bin" "a.bin" "" "catbox" "1h").1 = ∅.
Proof.
  intros env w.
  destruct (forward_rejects_non_2xx env w "catbox" "/tmp/temp/a.bin" "a.bin" "" "1h"
              "https://catbox.moe/user/api.php"
              (mkBody [("reqtype", "fileupload")] "fileToUpload" "a.bin"
                      (list_byte_of_string "A"))
              503 "Service Unavailable") as (Hfwd & _ & _ & Hdb & _).
  - reflexivity.
  - reflexivity.
  - reflexivity.
  - lia.
  - split; [exact Hfwd|]. split; [reflexivity | exact Hdb].
Defined.

(** C8.  Whatever the backend replies, a forward is a success only when the
    status is exactly 200; every other status, 201 and 204 included, gives
    the bad-status error with that code and the reply text. *)
Theorem forward_requires_status_200 (env : Env) (w : World)
    (destination filePath filename userhash timeVal url : string)
    (body : MultipartBody) (code : Z) (respBody : string) :
  urlMap destination = Some url ->
  multipartBody w destination filePath filename userhash timeVal = Ok body ->
  backend env url body = Responded code respBody ->
  (code <> 200%Z ->
   (forwardToDestination env w destination filePath filename userhash timeVal).2
   = Err (BadStatus code respBody) /\
   contains (itoa code) (ForwardError_Error (BadStatus code respBody)) /\
   contains respBody (ForwardError_Error (BadStatus code respBody))) /\
  (forall u,
      (forwardToDestination env w destination filePath filename userhash timeVal).2 = Ok u ->
      code = 200%Z).
Proof.
  intros Hurl Hbody Hresp.
  destruct (forward_responded env w destination filePath filename userhash timeVal
              url body code respBody Hurl Hbody Hresp) as [Hfail Hok].
  split; [|exact Hok].
  intros Hne. rewrite (Hfail Hne). split; [done|]. apply BadStatus_message.
Qed.

Lemma forward_requires_status_200_witness :
  let w := mkWorld (fs exampleWorld) ∅ [] in
  (forwardToDestination (exampleEnv (Responded 201 "https://files.catbox.moe/new.bin") false)
                        w "catbox" "/tmp/temp/a.bin" "a.bin" "" "1h").2
  = Err (BadStatus 201 "https://files.catbox.moe/new.bin") /\
  (forwardToDestination (exampleEnv (Responded 204 "") false)
                        w "litterbox" "/tmp/temp/a.bin" "a.bin" "" "1h").2
  = Err (BadStatus 204 "").
Proof.
  intros w. split.
  - apply (forward_requires_status_200
             (exampleEnv (Responded 201 "https://files.catbox.moe/new.bin") false)
             w "catbox" "/tmp/temp/a.bin" "a.bin" "" "1h"
             "https://catbox.moe/user/api.php"
             (mkBody [("reqtype", "fileupload")] "fileToUpload" "a.bin"
                     (list_byte_of_string "A"))
             201 "https://files.catbox.moe/new.bin"); [reflexivity..|lia].
  - apply (forward_requires_status_200
             (exampleEnv (Responded 204 "") false)
             w "litterbox" "/tmp/temp/a.bin" "a.bin" "" "1h"
             "https://litterbox.catbox.moe/resources/internals/api.php"
             (mkBody [("reqtype", "fileupload"); ("time", "1h")] "fileToUpload" "a.bin"
                     (list_byte_of_string "A"))
             204 ""); [reflexivity..|lia].
Defined.

(** ** Cache writes that fail *)

Lemma forward_Ok_cacheable (env : Env) (w : World)
    (destination filePath filename userhash timeVal url : string) :
  destination <> "litterbox" ->
  (forwardToDestination env w destination filePath filename userhash timeVal).2 = Ok url ->
  destination = "catbox" \/ destination = "pomf".
Proof.
  intros Hne. unfold forwardToDestination, urlMap.
  destruct (String.eqb destination "pomf") eqn:Hp.
  { apply String.eqb_eq in Hp. by right. }
  destruct (String.eqb destination "catbox") eqn:Hc.
  { apply String.eqb_eq in Hc. by left. }
  apply String.eqb_neq in Hne. by rewrite Hne.
Qed.

(** C7.  A cacheable upload misses the cache, the forward gives a URL and
    the upsert that follows fails: the request still answers 200 with that
    URL; the failure shows only in the table, which is left as it was. *)
Theorem store_failure_is_swallowed (env : Env) (w : World)
    (filePath filename userhash destination timeVal url : string) (data : list byte) :
  destination <> "litterbox" ->
  temp (fs w) !! filePath = Some data ->
  queryFails env = false ->
  cachedURL destination (selectRow (db w) (sha256_hex env data)) = "" ->
  (forwardToDestination env w destination filePath filename userhash timeVal).2 = Ok url ->
  execFails env = true ->
  let r := processAndForwardFile env w filePath filename userhash destination timeVal in
  r.2 = mkResponse 200 (JsonUrl url) /\
  db r.1 = db w /\
  In (CacheUpsert (sha256_hex env data) destination url) (newEvents w r.1).
Proof.
  intros Hdest Hfile Hquery Hmiss Hfwd Hexec r. subst r.
  rewrite (pipeline_miss env w filePath filename userhash destination timeVal data) by done.
  cbn zeta.
  set (hash := sha256_hex env data).
  set (w2 := emit (emit w (Hashed filePath)) (CacheLookup hash)).
  assert (Hfwd2 : (forwardToDestination env w2 destination filePath filename userhash timeVal).2
                  = Ok url) by (by rewrite (forward_result_fs env w w2)).
  rewrite Hfwd2.
  destruct (forward_effects env w2 destination filePath filename userhash timeVal)
    as (_ & Hdb & Htrace).
  destruct Htrace as [[_ [e [He _]]] | (u & body & _ & _ & Htrace)].
  { rewrite Hfwd2 in He. discriminate He. }
  set (w3 := (forwardToDestination env w2 destination filePath filename userhash timeVal).1) in *.
  assert (Hstore : storeUrl env w3 hash destination url
                   = (emit w3 (CacheUpsert hash destination url), Some ExecFailed)).
  { unfold storeUrl. rewrite Hexec.
    destruct (forward_Ok_cacheable env w destination filePath filename userhash timeVal url
                Hdest Hfwd) as [-> | ->]; reflexivity. }
  rewrite Hstore. cbn [fst snd]. split; [done|]. split; [done|].
  assert (Hnew : newEvents w (emit w3 (CacheUpsert hash destination url))
                 = [Hashed filePath; CacheLookup hash; Posted u body;
                    CacheUpsert hash destination url]).
  { apply newEvents_app. simpl. rewrite Htrace. simpl. by rewrite <- !app_assoc. }
  rewrite Hnew. simpl. tauto.
Qed.

Lemma store_failure_is_swallowed_witness :
  let env := exampleEnv (Responded 200 "https://files.catbox.moe/new.bin") true in
  let w := mkWorld (fs exampleWorld) ∅ [] in
  let r := processAndForwardFile env w "/tmp/temp/a.bin" "a.bin" "" "catbox" "1h" in
  r.2 = mkResponse 200 (JsonUrl "https://files.catbox.moe/new.bin") /\ db r.1 = ∅.
Proof.
  intros env w r.
  destruct (store_failure_is_swallowed env w "/tmp/temp/a.bin" "a.bin" "" "catbox" "1h"
              "https://files.catbox.moe/new.bin" (list_byte_of_string "A"))
    as (Hresp & Hdb & _).
  - discriminate.
  - reflexivity.
  - reflexivity.
  - reflexivity.
  - reflexivity.
  - reflexivity.
  - split; [exact Hresp | exact Hdb].
Defined.

(** ** Time to live *)

(** The artifact of a successful assembly is there to be read. *)
Lemma assembleChunks_Ok (fs fs1 : FS) (uuid chunkDir filename finalPath : string) :
  assembleChunks fs uuid chunkDir filename = (fs1, Ok finalPath) ->
  finalPath = finalPathOf uuid filename /\ is_Some (temp fs1 !! finalPath).
Proof.
  unfold assembleChunks, os_Create.
  destruct (os_ReadDir fs chunkDir) as [entries|]; [|done].
  destruct (tempWritable fs); [|done].
  destruct (copyChunks entries (chunkNames entries) []) as [written [e|]]; [done|].
  intros [= <- <-]. split; [done|]. simpl. rewrite lookup_insert_eq. by eexists.
Qed.

Lemma finishHandler_litterbox_events (env : Env) (uuid : string) (w : World) (r : Request) :
  FormValue r "time" = "" ->
  FormValue r "destination" = "litterbox" ->
  newEvents w (finishHandler env uuid w r).1 = [] \/
  exists data,
    newEvents w (finishHandler env uuid w r).1
    = [Posted "https://litterbox.catbox.moe/resources/internals/api.php"
              (mkBody [("reqtype", "fileupload"); ("time", "1h")]
                      "fileToUpload" (FormValue r "filename") data)].
Proof.
  intros Htime Hdest. unfold finishHandler. rewrite Htime, Hdest. cbn [String.eqb].
  destruct (String.eqb (FormValue r "uploadId") "" || String.eqb (FormValue r "filename") ""
            || false).
  { left. by apply newEvents_same. }
  destruct (assembleChunks (fs w) uuid (filepath_Join uploadsDir (FormValue r "uploadId"))
              (FormValue r "filename")) as [fs1 [finalPath|err]].
  2:{ left. by apply newEvents_same. }
  pose proof (pipeline_litterbox_events env (setFS w fs1) finalPath (FormValue r "filename")
                (FormValue r "userhash") "1h") as Hev.
  cbn zeta in Hev.
  destruct (processAndForwardFile env (setFS w fs1) finalPath (FormValue r "filename")
              (FormValue r "userhash") "litterbox" "1h") as [w1 resp].
  cbn [fst] in *.
  rewrite (newEvents_trace w (setFS w fs1) _ w1) by done.
  destruct Hev as [[_ Hev] | [data [_ Hev]]]; [by left | right; by exists data].
Qed.

Lemma directHandler_litterbox_events (env : Env) (uuid : string) (w : World) (r : Request) :
  FormValue r "time" = "" ->
  FormValue r "destination" = "litterbox" ->
  newEvents w (directHandler env uuid w r).1 = [] \/
  exists headerFilename data,
    formFiles r !! "file" = Some (headerFilename, data) /\
    newEvents w (directHandler env uuid w r).1
    = [Posted "https://litterbox.catbox.moe/resources/internals/api.php"
              (mkBody [("reqtype", "fileupload"); ("time", "1h")]
                      "fileToUpload" headerFilename data)].
Proof.
  intros Htime Hdest. unfold directHandler. rewrite Htime, Hdest. cbn [String.eqb].
  destruct (negb (formParses r)).
  { left. by apply newEvents_same. }
  destruct (formFiles r !! "file") as [[headerFilename data]|].
  2:{ left. by apply newEvents_same. }
  unfold os_Create. destruct (tempWritable (fs w)).
  2:{ left. by apply newEvents_same. }
  set (tempPath := filepath_Join tempDir (uuid +:+ filepath_Ext headerFilename)).
  set (w0 := setFS w _).
  pose proof (pipeline_litterbox_events env w0 tempPath headerFilename
                (FormValue r "userhash") "1h") as Hev.
  cbn zeta in Hev.
  destruct (processAndForwardFile env w0 tempPath headerFilename
              (FormValue r "userhash") "litterbox" "1h") as [w1 resp].
  cbn [fst] in *.
  rewrite (newEvents_trace w w0 _ w1) by done.
  destruct Hev as [[Hnone _] | [data' [Hfile Hev]]].
  - exfalso. subst w0. simpl in Hnone. by rewrite lookup_insert_eq in Hnone.
  - right. exists headerFilename, data. split; [done|].
    subst w0. simpl in Hfile. rewrite lookup_insert_eq in Hfile.
    injection Hfile as <-. exact Hev.
Qed.

(** C9.  A finish request and a direct upload that carry no [time] value
    and go to the ephemeral backend pass "1h": every POST either handler
    makes has the field [time = 1h], and the POST is made as soon as the
    artifact is there (assembly succeeded, or the uploaded file was
    stored). *)
Theorem default_ttl_is_one_hour (env : Env) (uuid : string) (w : World) (r : Request) :
  FormValue r "time" = "" ->
  FormValue r "destination" = "litterbox" ->
  (forall url body,
      In (Posted url body) (newEvents w (finishHandler env uuid w r).1) ->
      In ("time", "1h") (fields body)) /\
  (forall url body,
      In (Posted url body) (newEvents w (directHandler env uuid w r).1) ->
      In ("time", "1h") (fields body)) /\
  (forall fs1 finalPath,
      FormValue r "uploadId" <> "" -> FormValue r "filename" <> "" ->
      assembleChunks (fs w) uuid (filepath_Join uploadsDir (FormValue r "uploadId"))
                     (FormValue r "filename") = (fs1, Ok finalPath) ->
      exists body,
        newEvents w (finishHandler env uuid w r).1
        = [Posted "https://litterbox.catbox.moe/resources/internals/api.php" body] /\
        fields body = [("reqtype", "fileupload"); ("time", "1h")]) /\
  (forall headerFilename data,
      formParses r = true -> formFiles r !! "file" = Some (headerFilename, data) ->
      tempWritable (fs w) = true ->
      exists body,
        newEvents w (directHandler env uuid w r).1
        = [Posted "https://litterbox.catbox.moe/resources/internals/api.php" body] /\
        fields body = [("reqtype", "fileupload"); ("time", "1h")]).
Proof.
  intros Htime Hdest. repeat split.
  - intros url body Hin.
    destruct (finishHandler_litterbox_events env uuid w r Htime Hdest) as [Hev | [data Hev]];
      rewrite Hev in Hin; simpl in Hin; [done|].
    destruct Hin as [[= <- <-] | []]. simpl. tauto.
  - intros url body Hin.
    destruct (directHandler_litterbox_events env uuid w r Htime Hdest)
      as [Hev | (name & data & _ & Hev)];
      rewrite Hev in Hin; simpl in Hin; [done|].
    destruct Hin as [[= <- <-] | []]. simpl. tauto.
  - intros fs1 finalPath Hid Hname Hasm.
    destruct (assembleChunks_Ok _ _ _ _ _ _ Hasm) as [_ [data Hdata]].
    unfold finishHandler. rewrite Htime, Hdest, Hasm. cbn [String.eqb].
    apply String.eqb_neq in Hid, Hname. rewrite Hid, Hname. cbn [orb].
    pose proof (pipeline_litterbox_events env (setFS w fs1) finalPath (FormValue r "filename")
                  (FormValue r "userhash") "1h") as Hev.
    cbn zeta in Hev.
    destruct (processAndForwardFile env (setFS w fs1) finalPath (FormValue r "filename")
                (FormValue r "userhash") "litterbox" "1h") as [w1 resp].
    cbn [fst] in *.
    rewrite (newEvents_trace w (setFS w fs1) _ w1) by done.
    destruct Hev as [[Hnone _] | [data' [_ Hev]]].
    + simpl in Hnone. by rewrite Hdata in Hnone.
    + eexists. split; [exact Hev | done].
  - intros headerFilename data Hparse Hfile Hw.
    destruct (directHandler_litterbox_events env uuid w r Htime Hdest)
      as [Hev | (name & data' & _ & Hev)].
    + exfalso. revert Hev. unfold directHandler, os_Create.
      rewrite Hparse, Hfile, Hw, Htime, Hdest. cbn [negb String.eqb].
      set (tempPath := filepath_Join tempDir (uuid +:+ filepath_Ext headerFilename)).
      set (w0 := setFS w _).
      pose proof (pipeline_litterbox_events env w0 tempPath headerFilename
                    (FormValue r "userhash") "1h") as Hev.
      cbn zeta in Hev.
      destruct (processAndForwardFile env w0 tempPath headerFilename
                  (FormValue r "userhash") "litterbox" "1h") as [w1 resp].
      cbn [fst] in *.
      rewrite (newEvents_trace w w0 _ w1) by done.
      destruct Hev as [[Hnone _] | [d [_ Hev]]].
      * subst w0. simpl in Hnone. by rewrite lookup_insert_eq in Hnone.
      * by rewrite Hev.
    + eexists. split; [exact Hev | done].
Qed.

Lemma default_ttl_is_one_hour_witness :
  let env := exampleEnv (Responded 200 "https://litter.catbox.moe/xyz.bin") false in
  let w := receiveChunks emptyWorld [chunkRequest "s" "0" (list_byte_of_string "A")] in
  (exists body,
      newEvents w (finishHandler env "u" w (finishRequest "s" "f.bin" "litterbox")).1
      = [Posted "https://litterbox.catbox.moe/resources/internals/api.php" body] /\
      fields body = [("reqtype", "fileupload"); ("time", "1h")]) /\
  (exists body,
      newEvents w (directHandler env "u" w
                     (directRequest "a.bin" (list_byte_of_string "A") "litterbox")).1
      = [Posted "https://litterbox.catbox.moe/resources/internals/api.php" body] /\
      fields body = [("reqtype", "fileupload"); ("time", "1h")]).
Proof.
  intros env w. split.
  - destruct (default_ttl_is_one_hour env "u" w (finishRequest "s" "f.bin" "litterbox"))
      as (_ & _ & Hfinish & _); [reflexivity | reflexivity |].
    eapply Hfinish; [discriminate | discriminate | reflexivity].
  - destruct (default_ttl_is_one_hour env "u" w
                (directRequest "a.bin" (list_byte_of_string "A") "litterbox"))
      as (_ & _ & _ & Hdirect); [reflexivity | reflexivity |].
    eapply Hdirect; reflexivity.
Defined.

(** ** Cleanup *)

Lemma storeUrl_fs (env : Env) (w : World) (hash destination url : string) :
  fs (storeUrl env w hash destination url).1 = fs w.
Proof.
  unfold storeUrl.
  destruct (String.eqb destination "catbox"); [by destruct (execFails env)|].
  destruct (String.eqb destination "pomf"); [by destruct (execFails env)|done].
Qed.

(** The pipeline reads the artifact and never touches storage. *)
Lemma pipeline_fs (env : Env) (w : World)
    (filePath filename userhash destination timeVal : string) :
  fs (processAndForwardFile env w filePath filename userhash destination timeVal).1 = fs w.
Proof.
  unfold processAndForwardFile.
  destruct (String.eqb destination "litterbox").
  - destruct (forward_effects env w destination filePath filename userhash timeVal)
      as (Hfs & _).
    by destruct (forwardToDestination env w destination filePath filename userhash timeVal)
      as [w1 [url|err]].
  - unfold calculateFileHash, GetURLsByHash.
    destruct (temp (fs w) !! filePath) as [data|]; [|done].
    destruct (queryFails env); [done|].
    destruct (negb (String.eqb (cachedURL destination _) "")); [done|].
    set (w2 := emit (emit w (Hashed filePath)) (CacheLookup (sha256_hex env data))).
    destruct (forward_effects env w2 destination filePath filename userhash timeVal)
      as (Hfs & _).
    destruct (forwardToDestination env w2 destination filePath filename userhash timeVal)
      as [w3 [url|err]]; [|done].
    pose proof (storeUrl_fs env w3 (sha256_hex env data) destination url) as Hst.
    destruct (storeUrl env w3 (sha256_hex env data) destination url) as [w4 e].
    simpl in *. congruence.
Qed.

(** A finish request that passes validation removes the session directory,
    whatever happens next. *)
Lemma finish_removes_session (env : Env) (uuid : string) (w : World) (r : Request) :
  FormValue r "uploadId" <> "" ->
  FormValue r "filename" <> "" ->
  FormValue r "destination" <> "" ->
  uploads (fs (finishHandler env uuid w r).1)
    !! filepath_Join uploadsDir (FormValue r "uploadId") = None.
Proof.
  intros Hid Hname Hdest. unfold finishHandler.
  apply String.eqb_neq in Hid, Hname, Hdest. rewrite Hid, Hname, Hdest. cbn [orb].
  destruct (assembleChunks (fs w) uuid _ (FormValue r "filename")) as [fs1 [finalPath|err]].
  - destruct (processAndForwardFile env (setFS w fs1) finalPath _ _ _ _) as [w1 resp].
    simpl. apply lookup_delete_eq.
  - simpl. apply lookup_delete_eq.
Qed.

(** When assembly succeeds the artifact is removed as the request ends. *)
Lemma finish_removes_artifact (env : Env) (uuid : string) (w : World) (r : Request)
    (fs1 : FS) (finalPath : string) :
  FormValue r "uploadId" <> "" ->
  FormValue r "filename" <> "" ->
  FormValue r "destination" <> "" ->
  assembleChunks (fs w) uuid (filepath_Join uploadsDir (FormValue r "uploadId"))
                 (FormValue r "filename") = (fs1, Ok finalPath) ->
  temp (fs (finishHandler env uuid w r).1) !! finalPath = None.
Proof.
  intros Hid Hname Hdest Hasm. unfold finishHandler.
  apply String.eqb_neq in Hid, Hname, Hdest. rewrite Hid, Hname, Hdest. cbn [orb].
  rewrite Hasm.
  destruct (processAndForwardFile env (setFS w fs1) finalPath _ _ _ _) as [w1 resp].
  simpl. apply lookup_delete_eq.
Qed.

(** When assembly fails after the final file was created, nothing removes
    it: the file assembly left in [tempDir] is still there when the request
    has ended. *)
Lemma finish_keeps_failed_artifact (env : Env) (uuid : string) (w : World) (r : Request)
    (fs1 : FS) (err : AssembleError) :
  FormValue r "uploadId" <> "" ->
  FormValue r "filename" <> "" ->
  FormValue r "destination" <> "" ->
  assembleChunks (fs w) uuid (filepath_Join uploadsDir (FormValue r "uploadId"))
                 (FormValue r "filename") = (fs1, Err err) ->
  temp (fs (finishHandler env uuid w r).1) = temp fs1.
Proof.
  intros Hid Hname Hdest Hasm. unfold finishHandler.
  apply String.eqb_neq in Hid, Hname, Hdest. rewrite Hid, Hname, Hdest. cbn [orb].
  by rewrite Hasm.
Qed.

(** C2 at its failing input.  The session holds chunk 0, which reads "A",
    and chunk 1, whose read fails after "B".  The finish request answers
    500 with the copy error and removes the session directory, but the
    partly written artifact stays in [tempDir]. *)
Theorem finish_leaks_partial_artifact (env : Env) :
  let entries : dir :=
    [("chunk_0", Regular (list_byte_of_string "A"));
     ("chunk_1", Faulty (list_byte_of_string "B"))] in
  let w := mkWorld (mkFS {[filepath_Join uploadsDir "s" := entries]} ∅ true) ∅ [] in
  let r := finishHandler env "u" w (finishRequest "s" "f.bin" "catbox") in
  r.2 = http_Error (AssembleFailed (WriteChunkFailed "chunk_1")) StatusInternalServerError /\
  uploads (fs r.1) !! filepath_Join uploadsDir "s" = None /\
  temp (fs r.1) !! finalPathOf "u" "f.bin" = Some (list_byte_of_string "AB").
Proof. vm_compute. repeat split. Qed.

(** The same with a chunk that cannot be opened: the artifact is left
    behind empty. *)
Lemma finish_leaks_empty_artifact (env : Env) :
  let entries : dir := [("chunk_0", Unreadable)] in
  let w := mkWorld (mkFS {[filepath_Join uploadsDir "s" := entries]} ∅ true) ∅ [] in
  let r := finishHandler env "u" w (finishRequest "s" "f.bin" "catbox") in
  r.2 = http_Error (AssembleFailed (OpenChunkFailed "chunk_0")) StatusInternalServerError /\
  temp (fs r.1) !! finalPathOf "u" "f.bin" = Some [].
Proof. vm_compute. repeat split. Qed.

(** * Further properties *)

(** ** Dedup cache: upsert and lookup *)

(** The row an upsert of [url] for [destination] leaves under [hash]. *)
Lemma storeUrl_ok (env : Env) (w : World) (hash destination url : string) :
  execFails env = false ->
  destination = "catbox" \/ destination = "pomf" ->
  storeUrl env w hash destination url
  = (mkWorld (fs w)
             (<[hash := mkRow (if String.eqb destination "catbox" then Some url
                               else CatboxURL (selectRow (db w) hash))
                              (if String.eqb destination "pomf" then Some url
                               else PomfURL (selectRow (db w) hash))]> (db w))
             (trace w ++ [CacheUpsert hash destination url]),
     None).
Proof.
  intros Hexec Hdest. unfold storeUrl, selectRow. rewrite Hexec.
  destruct Hdest as [-> | ->]; simpl; by destruct (db w !! hash).
Qed.

(** Upsert, then lookup: the record read back for the same fingerprint has
    the stored URL in the column of the backend, and the pipeline takes it
    for the cached URL. *)
Theorem store_then_lookup (env : Env) (w : World) (hash destination url : string) :
  execFails env = false ->
  queryFails env = false ->
  destination = "catbox" \/ destination = "pomf" ->
  let w1 := (storeUrl env w hash destination url).1 in
  (storeUrl env w hash destination url).2 = None /\
  columnOf destination <$> (GetURLsByHash env w1 hash).2 = Some (Some url) /\
  cachedURL destination (selectRow (db w1) hash) = url.
Proof.
  intros Hexec Hquery Hdest w1. subst w1.
  rewrite (storeUrl_ok env w hash destination url Hexec Hdest).
  unfold GetURLsByHash, selectRow, columnOf, cachedURL. rewrite Hquery. simpl.
  rewrite lookup_insert_eq.
  destruct Hdest as [-> | ->]; simpl; by repeat split.
Qed.

Lemma store_then_lookup_witness :
  let env := exampleEnv (Responded 200 "") false in
  cachedURL "pomf"
    (selectRow (db (storeUrl env exampleWorld "0f1e2d" "pomf" "https://pomf.lain.la/f/x.bin").1)
               "0f1e2d")
  = "https://pomf.lain.la/f/x.bin".
Proof.
  intros env.
  apply (store_then_lookup env exampleWorld "0f1e2d" "pomf" "https://pomf.lain.la/f/x.bin");
    [reflexivity | reflexivity | by right].
Defined.

(** An upsert writes exactly when [db.Exec] succeeds for a cacheable
    backend, and then it touches one column of one row.  On success the
    column of the backend holds the URL and the result is [nil]; a failed
    [Exec] returns the wrapped error and leaves the table as it was; a
    destination without a column returns an error with nothing attempted.
    In every case the rows of other fingerprints, the URL of the other
    backend and storage are left alone, and a second upsert for the same
    fingerprint and backend replaces the first (the last write wins, no
    second row). *)
Theorem store_touches_one_column (env : Env) (w : World) (hash destination url : string) :
  let w1 := (storeUrl env w hash destination url).1 in
  let result := (storeUrl env w hash destination url).2 in
  (destination = "catbox" \/ destination = "pomf" ->
   (execFails env = false ->
    result = None /\
    columnOf destination (selectRow (db w1) hash) = Some url /\
    is_Some (db w1 !! hash)) /\
   (execFails env = true -> result = Some ExecFailed /\ db w1 = db w)) /\
  (destination <> "catbox" -> destination <> "pomf" ->
   result = Some (UnsupportedStore destination) /\ w1 = w) /\
  fs w1 = fs w /\
  (forall h, h <> hash -> db w1 !! h = db w !! h) /\
  (forall other, other <> destination ->
                 columnOf other (selectRow (db w1) hash)
                 = columnOf other (selectRow (db w) hash)) /\
  (forall url', db (storeUrl env w1 hash destination url').1
                = db (storeUrl env w hash destination url').1).
Proof.
  intros w1 result. subst w1 result.
  split; [|split; [|split; [apply storeUrl_fs|]]].
  - intros Hdest. split.
    + intros Hexec. rewrite (storeUrl_ok env w hash destination url Hexec Hdest).
      cbn [fst snd db]. unfold columnOf, selectRow. rewrite lookup_insert_eq.
      destruct Hdest as [-> | ->]; simpl; by repeat split.
    + intros Hexec. unfold storeUrl. rewrite Hexec.
      by destruct Hdest as [-> | ->].
  - intros Hc Hp. unfold storeUrl.
    apply String.eqb_neq in Hc, Hp. by rewrite Hc, Hp.
  - unfold storeUrl.
    destruct (String.eqb destination "catbox") eqn:Hc;
      [|destruct (String.eqb destination "pomf") eqn:Hp].
    + apply String.eqb_eq in Hc. subst destination.
      destruct (execFails env); simpl; [by repeat split|].
      split; [|split].
      * intros h Hh. by rewrite lookup_insert_ne.
      * intros other Hother. unfold columnOf, selectRow.
        apply String.eqb_neq in Hother. rewrite Hother.
        rewrite lookup_insert_eq. by destruct (db w !! hash).
      * intros url'. rewrite lookup_insert_eq, insert_insert_eq.
        by destruct (db w !! hash).
    + apply String.eqb_eq in Hp. subst destination.
      destruct (execFails env); simpl; [by repeat split|].
      split; [|split].
      * intros h Hh. by rewrite lookup_insert_ne.
      * intros other Hother. unfold columnOf, selectRow.
        apply String.eqb_neq in Hother. rewrite Hother.
        rewrite lookup_insert_eq.
        destruct (String.eqb other "catbox"); by destruct (db w !! hash).
      * intros url'. rewrite lookup_insert_eq, insert_insert_eq.
        by destruct (db w !! hash).
    + simpl. by repeat split.
Qed.

(** ** Pipeline: hits, misses and failures *)

(** A cacheable backend on a cache hit: hash, lookup, answer. *)
Lemma pipeline_hit (env : Env) (w : World)
    (filePath filename userhash destination timeVal : string) (data : list byte) :
  destination <> "litterbox" ->
  temp (fs w) !! filePath = Some data ->
  queryFails env = false ->
  cachedURL destination (selectRow (db w) (sha256_hex env data)) <> "" ->
  processAndForwardFile env w filePath filename userhash destination timeVal
  = (emit (emit w (Hashed filePath)) (CacheLookup (sha256_hex env data)),
     json_Encode (JsonUrl (cachedURL destination (selectRow (db w) (sha256_hex env data))))).
Proof.
  intros Hdest Hfile Hquery Hhit.
  apply String.eqb_neq in Hdest, Hhit.
  unfold processAndForwardFile, calculateFileHash, GetURLsByHash.
  rewrite Hdest, Hfile, Hquery. simpl. by rewrite Hhit.
Qed.

(** A cache hit: a stored, non-empty URL for the requested backend is the
    answer.  The request computes the fingerprint and reads the record, and
    that is all: no POST, no upsert, the table unchanged; nothing checks
    that the URL is still good. *)
Theorem cache_hit_returns_stored_url (env : Env) (w : World)
    (filePath filename userhash destination timeVal : string) (data : list byte) :
  destination <> "litterbox" ->
  temp (fs w) !! filePath = Some data ->
  queryFails env = false ->
  cachedURL destination (selectRow (db w) (sha256_hex env data)) <> "" ->
  let r := processAndForwardFile env w filePath filename userhash destination timeVal in
  r.2 = mkResponse 200
          (JsonUrl (cachedURL destination (selectRow (db w) (sha256_hex env data)))) /\
  db r.1 = db w /\
  newEvents w r.1 = [Hashed filePath; CacheLookup (sha256_hex env data)].
Proof.
  intros Hdest Hfile Hquery Hhit r. subst r.
  rewrite (pipeline_hit env w filePath filename userhash destination timeVal data) by done.
  repeat split. events.
Qed.

Lemma cache_hit_returns_stored_url_witness :
  let env := exampleEnv (Responded 200 "https://files.catbox.moe/other.bin") false in
  let r := processAndForwardFile env exampleWorld "/tmp/temp/a.bin" "a.bin" "" "catbox" "1h" in
  r.2 = mkResponse 200 (JsonUrl "https://files.catbox.moe/abc.bin") /\
  newEvents exampleWorld r.1 = [Hashed "/tmp/temp/a.bin"; CacheLookup "0f1e2d"].
Proof.
  intros env r.
  destruct (cache_hit_returns_stored_url env exampleWorld "/tmp/temp/a.bin" "a.bin" ""
              "catbox" "1h" (list_byte_of_string "A")) as (Hresp & _ & Hnew).
  - discriminate.
  - reflexivity.
  - reflexivity.
  - discriminate.
  - split; [exact Hresp | exact Hnew].
Defined.

(** A cache miss with a healthy database and a forward that gives [url]:
    the answer is [url], and the table now has it under the fingerprint. *)
Lemma pipeline_miss_stores (env : Env) (w : World)
    (filePath filename userhash destination timeVal url : string) (data : list byte) :
  destination <> "litterbox" ->
  temp (fs w) !! filePath = Some data ->
  queryFails env = false ->
  execFails env = false ->
  cachedURL destination (selectRow (db w) (sha256_hex env data)) = "" ->
  (forwardToDestination env w destination filePath filename userhash timeVal).2 = Ok url ->
  let r := processAndForwardFile env w filePath filename userhash destination timeVal in
  exists u body,
    r.2 = mkResponse 200 (JsonUrl url) /\
    fs r.1 = fs w /\
    cachedURL destination (selectRow (db r.1) (sha256_hex env data)) = url /\
    newEvents w r.1
    = [Hashed filePath; CacheLookup (sha256_hex env data); Posted u body;
       CacheUpsert (sha256_hex env data) destination url].
Proof.
  intros Hdest Hfile Hquery Hexec Hmiss Hfwd r. subst r.
  rewrite (pipeline_miss env w filePath filename userhash destination timeVal data) by done.
  cbn zeta.
  set (hash := sha256_hex env data) in *.
  set (w2 := emit (emit w (Hashed filePath)) (CacheLookup hash)).
  assert (Hfwd2 : (forwardToDestination env w2 destination filePath filename userhash timeVal).2
                  = Ok url) by (by rewrite (forward_result_fs env w w2)).
  rewrite Hfwd2.
  destruct (forward_effects env w2 destination filePath filename userhash timeVal)
    as (Hfs & Hdb & Htrace).
  destruct Htrace as [[_ [e [He _]]] | (u & body & _ & _ & Htrace)].
  { rewrite Hfwd2 in He. discriminate He. }
  set (w3 := (forwardToDestination env w2 destination filePath filename userhash timeVal).1) in *.
  pose proof (forward_Ok_cacheable env w destination filePath filename userhash timeVal url
                Hdest Hfwd) as Hcase.
  rewrite (storeUrl_ok env w3 hash destination url Hexec Hcase). cbn [fst snd].
  exists u, body. split; [done|]. split; [done|]. split.
  - unfold cachedURL, selectRow. simpl. rewrite lookup_insert_eq.
    destruct Hcase as [-> | ->]; reflexivity.
  - apply newEvents_app. simpl. rewrite Htrace. simpl. by rewrite <- !app_assoc.
Qed.

(** The same content sent twice to the same cacheable backend: one POST.
    The first request misses, forwards and records the URL; the second
    finds it and answers with the same URL without contacting the backend.
    This needs the backend's URL to be non-empty: an empty one is stored
    but never counts as a hit. *)
Theorem second_upload_is_served_from_cache (env : Env) (w : World)
    (filePath filename userhash filePath' filename' userhash' destination timeVal timeVal' url
       : string) (data : list byte) :
  destination <> "litterbox" ->
  temp (fs w) !! filePath = Some data ->
  temp (fs w) !! filePath' = Some data ->
  queryFails env = false ->
  execFails env = false ->
  cachedURL destination (selectRow (db w) (sha256_hex env data)) = "" ->
  (forwardToDestination env w destination filePath filename userhash timeVal).2 = Ok url ->
  url <> "" ->
  let r1 := processAndForwardFile env w filePath filename userhash destination timeVal in
  let r2 := processAndForwardFile env r1.1 filePath' filename' userhash' destination timeVal' in
  r1.2 = mkResponse 200 (JsonUrl url) /\
  r2.2 = mkResponse 200 (JsonUrl url) /\
  (exists u body,
      newEvents w r1.1
      = [Hashed filePath; CacheLookup (sha256_hex env data); Posted u body;
         CacheUpsert (sha256_hex env data) destination url]) /\
  newEvents r1.1 r2.1 = [Hashed filePath'; CacheLookup (sha256_hex env data)] /\
  db r2.1 = db r1.1.
Proof.
  intros Hdest Hfile Hfile' Hquery Hexec Hmiss Hfwd Hurl r1 r2.
  destruct (pipeline_miss_stores env w filePath filename userhash destination timeVal url data)
    as (u & body & Hresp1 & Hfs1 & Hcached & Hnew1); try done.
  fold r1 in Hresp1, Hfs1, Hcached, Hnew1.
  assert (Hhit : processAndForwardFile env r1.1 filePath' filename' userhash'
                   destination timeVal'
                 = (emit (emit r1.1 (Hashed filePath')) (CacheLookup (sha256_hex env data)),
                    json_Encode (JsonUrl url))).
  { rewrite (pipeline_hit env r1.1 filePath' filename' userhash' destination timeVal' data);
      rewrite ?Hcached, ?Hfs1; done. }
  subst r2. rewrite Hhit. cbn [fst snd].
  repeat split; try done; [by exists u, body | events].
Qed.

Lemma second_upload_is_served_from_cache_witness :
  let env := exampleEnv (Responded 200 "https://files.catbox.moe/new.bin") false in
  let w := mkWorld (fs exampleWorld) ∅ [] in
  let r1 := processAndForwardFile env w "/tmp/temp/a.bin" "a.bin" "" "catbox" "1h" in
  let r2 := processAndForwardFile env r1.1 "/tmp/temp/a.bin" "copy.bin" "" "catbox" "1h" in
  r1.2 = mkResponse 200 (JsonUrl "https://files.catbox.moe/new.bin") /\
  r2.2 = mkResponse 200 (JsonUrl "https://files.catbox.moe/new.bin") /\
  newEvents r1.1 r2.1 = [Hashed "/tmp/temp/a.bin"; CacheLookup "0f1e2d"].
Proof.
  intros env w r1 r2.
  destruct (second_upload_is_served_from_cache env w "/tmp/temp/a.bin" "a.bin" ""
              "/tmp/temp/a.bin" "copy.bin" "" "catbox" "1h" "1h"
              "https://files.catbox.moe/new.bin" (list_byte_of_string "A"))
    as (H1 & H2 & _ & H3 & _).
  - discriminate.
  - reflexivity.
  - reflexivity.
  - reflexivity.
  - reflexivity.
  - reflexivity.
  - reflexivity.
  - discriminate.
  - split; [exact H1|]. split; [exact H2 | exact H3].
Defined.

(** A backend name outside the table never reaches the network: the
    forward fails with the unsupported-destination error before a body is
    built, and the request that carried it answers 500 with that error and
    leaves the cache table alone.  The fingerprint and the lookup are not
    skipped for it: they come first. *)
Theorem unknown_destination_is_not_forwarded (env : Env) (w : World)
    (filePath filename userhash destination timeVal : string) :
  urlMap destination = None ->
  forwardToDestination env w destination filePath filename userhash timeVal
  = (w, Err (UnsupportedDestination destination)) /\
  let r := processAndForwardFile env w filePath filename userhash destination timeVal in
  db r.1 = db w /\
  status r.2 = 500%Z /\
  (forall url body, ~ In (Posted url body) (newEvents w r.1)) /\
  (forall data,
      temp (fs w) !! filePath = Some data -> queryFails env = false ->
      r.2 = http_Error (UploadFailed (UnsupportedDestination destination))
                       StatusInternalServerError /\
      newEvents w r.1 = [Hashed filePath; CacheLookup (sha256_hex env data)]).
Proof.
  intros Hurl.
  assert (Hfwd : forall w', forwardToDestination env w' destination filePath filename
                              userhash timeVal
                            = (w', Err (UnsupportedDestination destination))).
  { intros w'. unfold forwardToDestination. by rewrite Hurl. }
  split; [apply Hfwd|]. intros r. subst r.
  assert (Hd : String.eqb destination "litterbox" = false
               /\ String.eqb destination "catbox" = false
               /\ String.eqb destination "pomf" = false).
  { revert Hurl. unfold urlMap.
    destruct (String.eqb destination "pomf"); [done|].
    destruct (String.eqb destination "catbox"); [done|].
    by destruct (String.eqb destination "litterbox"). }
  destruct Hd as (Hl & Hc & Hp).
  unfold processAndForwardFile, calculateFileHash, GetURLsByHash. rewrite Hl.
  destruct (temp (fs w) !! filePath) as [data|] eqn:Hfile.
  2:{ cbn [fst snd]. rewrite (newEvents_same w w) by done.
      split; [done|]. split; [done|]. split; [by intros url body []|]. by intros data. }
  set (hash := sha256_hex env data).
  set (w2 := emit (emit w (Hashed filePath)) (CacheLookup hash)).
  assert (Hnew2 : newEvents w w2 = [Hashed filePath; CacheLookup hash]) by events.
  destruct (queryFails env).
  { cbn [fst snd]. rewrite Hnew2. split; [done|]. split; [done|].
    split; [intros url body; not_in_events|]. by intros data'. }
  assert (Hmiss : cachedURL destination (selectRow (db (emit w (Hashed filePath))) hash) = "").
  { unfold cachedURL. by rewrite Hc, Hp. }
  rewrite Hmiss. cbn [String.eqb negb]. rewrite Hfwd. cbn [fst snd]. rewrite Hnew2.
  split; [done|]. split; [done|]. split; [intros url body; not_in_events|].
  intros data' [= <-] _. done.
Qed.

Lemma unknown_destination_is_not_forwarded_witness :
  let env := exampleEnv (Responded 200 "https://example.org/x") false in
  processAndForwardFile env exampleWorld "/tmp/temp/a.bin" "a.bin" "" "imgur" "1h"
  = (emit (emit exampleWorld (Hashed "/tmp/temp/a.bin")) (CacheLookup "0f1e2d"),
     http_Error (UploadFailed (UnsupportedDestination "imgur")) StatusInternalServerError) /\
  forwardToDestination env exampleWorld "imgur" "/tmp/temp/a.bin" "a.bin" "" "1h"
  = (exampleWorld, Err (UnsupportedDestination "imgur")).
Proof.
  intros env.
  destruct (unknown_destination_is_not_forwarded env exampleWorld
              "/tmp/temp/a.bin" "a.bin" "" "imgur" "1h") as [Hfwd _]; [reflexivity|].
  split; [reflexivity | exact Hfwd].
Defined.

(** A cacheable upload whose fingerprint cannot be computed or whose cache
    lookup fails is given up with a 500 before anything is sent: unlike a
    failed upsert, a failed lookup is not swallowed. *)
Theorem lookup_failure_stops_the_upload (env : Env) (w : World)
    (filePath filename userhash destination timeVal : string) :
  destination <> "litterbox" ->
  temp (fs w) !! filePath = None \/ queryFails env = true ->
  let r := processAndForwardFile env w filePath filename userhash destination timeVal in
  status r.2 = 500%Z /\
  (exists msg, body r.2 = Text msg) /\
  db r.1 = db w /\
  (forall url body, ~ In (Posted url body) (newEvents w r.1)).
Proof.
  intros Hdest Hfail r. subst r. apply String.eqb_neq in Hdest.
  unfold processAndForwardFile, calculateFileHash, GetURLsByHash. rewrite Hdest.
  destruct (temp (fs w) !! filePath) as [data|] eqn:Hfile.
  - destruct Hfail as [Hnone | Hquery]; [done|]. rewrite Hquery. cbn [fst snd].
    assert (Hnew : newEvents w (emit (emit w (Hashed filePath))
                                     (CacheLookup (sha256_hex env data)))
                   = [Hashed filePath; CacheLookup (sha256_hex env data)]) by events.
    rewrite Hnew. split; [done|]. split; [by eexists|]. split; [done|].
    intros url body. not_in_events.
  - cbn [fst snd]. rewrite (newEvents_same w w) by done.
    split; [done|]. split; [by eexists|]. split; [done|]. by intros url body [].
Qed.

Lemma lookup_failure_stops_the_upload_witness :
  let env := mkEnv (fun _ => "0f1e2d") (fun _ _ => Responded 200 "https://files.catbox.moe/n.bin")
                   (fun _ => None) true false in
  (processAndForwardFile env exampleWorld "/tmp/temp/a.bin" "a.bin" "" "catbox" "1h").2
  = http_Error (Text "Internal Server Error") StatusInternalServerError /\
  status (processAndForwardFile env exampleWorld "/tmp/temp/a.bin" "a.bin" "" "catbox" "1h").2
  = 500%Z.
Proof.
  intros env.
  destruct (lookup_failure_stops_the_upload env exampleWorld
              "/tmp/temp/a.bin" "a.bin" "" "catbox" "1h") as (Hst & _).
  - discriminate.
  - right. reflexivity.
  - split; [reflexivity | exact Hst].
Defined.

(** ** Pipeline: what reaches the cache table *)

(** Either a request leaves the table as it was, or it went the whole way:
    a cacheable backend, a fingerprint, a lookup that missed, a forward
    that gave a URL and a database that takes the upsert. *)
Lemma pipeline_db_cases (env : Env) (w : World)
    (filePath filename userhash destination timeVal : string) :
  db (processAndForwardFile env w filePath filename userhash destination timeVal).1 = db w \/
  exists data url,
    temp (fs w) !! filePath = Some data /\
    destination <> "litterbox" /\
    queryFails env = false /\
    execFails env = false /\
    cachedURL destination (selectRow (db w) (sha256_hex env data)) = "" /\
    (forwardToDestination env w destination filePath filename userhash timeVal).2 = Ok url.
Proof.
  destruct (String.eqb destination "litterbox") eqn:Hl.
  { left. apply String.eqb_eq in Hl. subst destination.
    rewrite pipeline_litterbox. cbn zeta. cbn [fst].
    by destruct (forward_effects env w "litterbox" filePath filename userhash timeVal)
      as (_ & Hdb & _). }
  apply String.eqb_neq in Hl.
  destruct (temp (fs w) !! filePath) as [data|] eqn:Hfile.
  2:{ left. unfold processAndForwardFile, calculateFileHash.
      apply String.eqb_neq in Hl. by rewrite Hl, Hfile. }
  destruct (queryFails env) eqn:Hquery.
  { left. unfold processAndForwardFile, calculateFileHash, GetURLsByHash.
    apply String.eqb_neq in Hl. by rewrite Hl, Hfile, Hquery. }
  destruct (String.eqb (cachedURL destination (selectRow (db w) (sha256_hex env data))) "")
    eqn:Hcached.
  2:{ left. apply String.eqb_neq in Hcached.
      by rewrite (pipeline_hit env w filePath filename userhash destination timeVal data). }
  apply String.eqb_eq in Hcached.
  rewrite (pipeline_miss env w filePath filename userhash destination timeVal data) by done.
  cbn zeta.
  set (w2 := emit (emit w (Hashed filePath)) (CacheLookup (sha256_hex env data))).
  pose proof (forward_result_fs env w w2 destination filePath filename userhash timeVal
                eq_refl) as Hres.
  destruct (forward_effects env w2 destination filePath filename userhash timeVal)
    as (_ & Hdb & _).
  destruct ((forwardToDestination env w2 destination filePath filename userhash timeVal).2)
    as [url|err] eqn:Hfwd; [|by left].
  destruct (execFails env) eqn:Hexec.
  - left. unfold storeUrl. rewrite Hexec.
    destruct (String.eqb destination "catbox"); [done|].
    by destruct (String.eqb destination "pomf").
  - right. exists data, url. by rewrite <- Hres.
Qed.

(** The table after a miss that was forwarded and stored. *)
Lemma pipeline_miss_db (env : Env) (w : World)
    (filePath filename userhash destination timeVal url : string) (data : list byte) :
  destination <> "litterbox" ->
  temp (fs w) !! filePath = Some data ->
  queryFails env = false ->
  execFails env = false ->
  cachedURL destination (selectRow (db w) (sha256_hex env data)) = "" ->
  (forwardToDestination env w destination filePath filename userhash timeVal).2 = Ok url ->
  db (processAndForwardFile env w filePath filename userhash destination timeVal).1
  = db (storeUrl env w (sha256_hex env data) destination url).1.
Proof.
  intros Hdest Hfile Hquery Hexec Hmiss Hfwd.
  rewrite (pipeline_miss env w filePath filename userhash destination timeVal data) by done.
  cbn zeta.
  set (hash := sha256_hex env data) in *.
  set (w2 := emit (emit w (Hashed filePath)) (CacheLookup hash)).
  rewrite (forward_result_fs env w w2) by done. rewrite Hfwd.
  destruct (forward_effects env w2 destination filePath filename userhash timeVal)
    as (_ & Hdb & _).
  pose proof (forward_Ok_cacheable env w destination filePath filename userhash timeVal url
                Hdest Hfwd) as Hcase.
  rewrite !storeUrl_ok by done. cbn [fst db]. by rewrite Hdb.
Qed.

(** The cache is written only after a successful forward: a request that
    changed the table answered 200 with a URL the backend gave, posted the
    file once, and left that URL in the backend's column of the row of the
    content's fingerprint. *)
Theorem cache_written_only_after_forward (env : Env) (w : World)
    (filePath filename userhash destination timeVal : string) :
  let r := processAndForwardFile env w filePath filename userhash destination timeVal in
  db r.1 = db w \/
  exists data url u body,
    temp (fs w) !! filePath = Some data /\
    (forwardToDestination env w destination filePath filename userhash timeVal).2 = Ok url /\
    r.2 = mkResponse 200 (JsonUrl url) /\
    columnOf destination (selectRow (db r.1) (sha256_hex env data)) = Some url /\
    newEvents w r.1
    = [Hashed filePath; CacheLookup (sha256_hex env data); Posted u body;
       CacheUpsert (sha256_hex env data) destination url].
Proof.
  intros r. subst r.
  destruct (pipeline_db_cases env w filePath filename userhash destination timeVal)
    as [Hsame | (data & url & Hfile & Hdest & Hquery & Hexec & Hmiss & Hfwd)]; [by left|].
  right.
  destruct (pipeline_miss_stores env w filePath filename userhash destination timeVal url data)
    as (u & body & Hresp & _ & _ & Hnew); try done.
  exists data, url, u, body. repeat split; try done.
  rewrite (pipeline_miss_db env w filePath filename userhash destination timeVal url data)
    by done.
  pose proof (forward_Ok_cacheable env w destination filePath filename userhash timeVal url
                Hdest Hfwd) as Hcase.
  rewrite storeUrl_ok by done. unfold columnOf, selectRow. cbn [fst db].
  rewrite lookup_insert_eq. destruct Hcase as [-> | ->]; reflexivity.
Qed.

(** No request changes what the table holds for another backend or for
    another fingerprint: an upload to catbox leaves every pomf URL as it
    was, and the other way round; an upload to litterbox leaves both. *)
Theorem upload_keeps_other_urls (env : Env) (w : World)
    (filePath filename userhash destination timeVal other hash : string) :
  other <> destination ->
  let r := processAndForwardFile env w filePath filename userhash destination timeVal in
  columnOf other (selectRow (db r.1) hash) = columnOf other (selectRow (db w) hash).
Proof.
  intros Hother r. subst r.
  destruct (pipeline_db_cases env w filePath filename userhash destination timeVal)
    as [Hsame | (data & url & Hfile & Hdest & Hquery & Hexec & Hmiss & Hfwd)];
    [by rewrite Hsame|].
  rewrite (pipeline_miss_db env w filePath filename userhash destination timeVal url data)
    by done.
  pose proof (forward_Ok_cacheable env w destination filePath filename userhash timeVal url
                Hdest Hfwd) as Hcase.
  rewrite storeUrl_ok by done. cbn [fst db]. unfold columnOf, selectRow.
  destruct (decide (hash = sha256_hex env data)) as [-> | Hne].
  - rewrite lookup_insert_eq. apply String.eqb_neq in Hother.
    destruct Hcase as [-> | ->]; rewrite Hother; simpl.
    + by destruct (db w !! sha256_hex env data).
    + destruct (String.eqb other "catbox"); by destruct (db w !! sha256_hex env data).
  - by rewrite lookup_insert_ne.
Qed.

Lemma upload_keeps_other_urls_witness :
  let env := mkEnv (fun _ => "0f1e2d") (fun _ _ => Responded 200 "{pomf reply}")
                   (fun _ => Some (mkPomf true ["https://pomf.lain.la/f/x.bin"] ""))
                   false false in
  let r := processAndForwardFile env exampleWorld "/tmp/temp/a.bin" "a.bin" "" "pomf" "1h" in
  db r.1 !! "0f1e2d"
  = Some (mkRow (Some "https://files.catbox.moe/abc.bin") (Some "https://pomf.lain.la/f/x.bin")) /\
  columnOf "catbox" (selectRow (db r.1) "0f1e2d")
  = columnOf "catbox" (selectRow (db exampleWorld) "0f1e2d").
Proof.
  intros env r. split; [reflexivity|].
  apply (upload_keeps_other_urls env exampleWorld "/tmp/temp/a.bin" "a.bin" "" "pomf" "1h"
           "catbox" "0f1e2d").
  discriminate.
Defined.

(** ** Forwarder: what is sent and what comes back *)

(** The user hash goes to catbox and nowhere else: a POST the forwarder
    makes carries a [userhash] field only when the destination is catbox,
    and then it is the caller's non-empty user hash, sent to the catbox
    API. *)
Theorem userhash_only_sent_to_catbox (env : Env) (w : World)
    (destination filePath filename userhash timeVal url value : string)
    (body : MultipartBody) :
  In (Posted url body)
     (newEvents w (forwardToDestination env w destination filePath filename userhash timeVal).1) ->
  In ("userhash", value) (fields body) ->
  destination = "catbox" /\ value = userhash /\ userhash <> "" /\
  url = "https://catbox.moe/user/api.php".
Proof.
  intros Hposted Hfield.
  destruct (forward_effects env w destination filePath filename userhash timeVal)
    as (_ & _ & [[Hsame _] | (url0 & body0 & Hurl & Hbody & Htrace)]).
  { rewrite (newEvents_same _ _ Hsame) in Hposted. destruct Hposted. }
  rewrite (newEvents_app _ _ _ Htrace) in Hposted.
  destruct Hposted as [[= <- <-] | []].
  revert Hurl Hbody. unfold urlMap, multipartBody.
  destruct (temp (fs w) !! filePath) as [data|]; [|by intros _ ?].
  destruct (String.eqb destination "pomf").
  { intros _ [= <-]. destruct Hfield. }
  destruct (String.eqb destination "catbox") eqn:Hc.
  - apply String.eqb_eq in Hc. subst destination. simpl.
    destruct (String.eqb userhash "") eqn:Hu; simpl; intros [= <-] [= <-]; simpl in Hfield.
    + destruct Hfield as [[=] | []].
    + apply String.eqb_neq in Hu. destruct Hfield as [[=] | [[= <-] | []]]. done.
  - simpl. destruct (String.eqb destination "litterbox"); [|by intros ? ?].
    intros _ [= <-]. simpl in Hfield. destruct Hfield as [[=] | [[=] | []]].
Qed.

Lemma userhash_only_sent_to_catbox_witness :
  let env := exampleEnv (Responded 200 "https://files.catbox.moe/new.bin") false in
  let r := forwardToDestination env exampleWorld "catbox" "/tmp/temp/a.bin" "a.bin" "u5er" "1h" in
  newEvents exampleWorld r.1
  = [Posted "https://catbox.moe/user/api.php"
            (mkBody [("reqtype", "fileupload"); ("userhash", "u5er")]
                    "fileToUpload" "a.bin" (list_byte_of_string "A"))] /\
  "catbox" = "catbox" /\ "u5er" = "u5er" /\ "u5er" <> "" /\
  "https://catbox.moe/user/api.php" = "https://catbox.moe/user/api.php".
Proof.
  intros env r. split; [reflexivity|].
  apply (userhash_only_sent_to_catbox env exampleWorld "catbox" "/tmp/temp/a.bin" "a.bin"
           "u5er" "1h" "https://catbox.moe/user/api.php" "u5er"
           (mkBody [("reqtype", "fileupload"); ("userhash", "u5er")]
                   "fileToUpload" "a.bin" (list_byte_of_string "A"))).
  - left. reflexivity.
  - right. left. reflexivity.
Defined.

(** The file part of every POST: the stored bytes of the artifact under the
    caller's file name, in field [files[]] with no other field for pomf and
    in field [fileToUpload] after [reqtype=fileupload] for the two catbox
    services, sent to the URL of the destination. *)
Theorem posted_file_is_the_artifact (env : Env) (w : World)
    (destination filePath filename userhash timeVal url : string) (body : MultipartBody) :
  In (Posted url body)
     (newEvents w (forwardToDestination env w destination filePath filename userhash timeVal).1) ->
  temp (fs w) !! filePath = Some (fileData body) /\
  fileName body = filename /\
  urlMap destination = Some url /\
  fileField body = (if String.eqb destination "pomf" then "files[]" else "fileToUpload") /\
  (if String.eqb destination "pomf" then fields body = []
   else In ("reqtype", "fileupload") (fields body)).
Proof.
  intros Hposted.
  destruct (forward_effects env w destination filePath filename userhash timeVal)
    as (_ & _ & [[Hsame _] | (url0 & body0 & Hurl & Hbody & Htrace)]).
  { rewrite (newEvents_same _ _ Hsame) in Hposted. destruct Hposted. }
  rewrite (newEvents_app _ _ _ Htrace) in Hposted.
  destruct Hposted as [[= <- <-] | []].
  split; [by eapply multipartBody_file|].
  revert Hbody. unfold multipartBody.
  destruct (temp (fs w) !! filePath) as [data|]; [|done].
  destruct (String.eqb destination "pomf").
  { intros [= <-]. by repeat split. }
  destruct (String.eqb destination "catbox" || String.eqb destination "litterbox"); [|done].
  intros [= <-]. simpl. repeat split; try done. by left.
Qed.

Lemma posted_file_is_the_artifact_witness :
  let env := mkEnv (fun _ => "0f1e2d") (fun _ _ => DoFailed "connection refused")
                   (fun _ => None) false false in
  let r := forwardToDestination env exampleWorld "pomf" "/tmp/temp/a.bin" "a.bin" "" "1h" in
  r.2 = Err (RequestFailed "connection refused") /\
  temp (fs exampleWorld) !! "/tmp/temp/a.bin" = Some (list_byte_of_string "A") /\
  urlMap "pomf" = Some "https://pomf.lain.la/upload.php".
Proof.
  intros env r. split; [reflexivity|].
  destruct (posted_file_is_the_artifact env exampleWorld "pomf" "/tmp/temp/a.bin" "a.bin" ""
              "1h" "https://pomf.lain.la/upload.php"
              (mkBody [] "files[]" "a.bin" (list_byte_of_string "A")))
    as (Hfile & _ & Hurl & _).
  - left. reflexivity.
  - split; [exact Hfile | exact Hurl].
Defined.

(** When a forward succeeds.  With the body sent, the forward gives a URL
    exactly when the backend answers 200 and, for pomf, the reply decodes
    to a success with at least one file, whose first URL is the result; for
    the two catbox services the reply text is the result as it stands, not
    trimmed and not checked to be a URL. *)
Theorem forward_success (env : Env) (w : World)
    (destination filePath filename userhash timeVal url u : string) (body : MultipartBody) :
  urlMap destination = Some url ->
  multipartBody w destination filePath filename userhash timeVal = Ok body ->
  (forwardToDestination env w destination filePath filename userhash timeVal).2 = Ok u <->
  exists respBody,
    backend env url body = Responded 200 respBody /\
    if String.eqb destination "pomf"
    then exists result,
        json_Unmarshal env respBody = Some result /\
        Success result = true /\ head (Files result) = Some u
    else u = respBody.
Proof.
  intros Hurl Hbody. unfold forwardToDestination. rewrite Hurl, Hbody.
  destruct (backend env url body) as [cause|cause|code respBody].
  - split; [done | by intros (? & ? & _)].
  - split; [done | by intros (? & ? & _)].
  - destruct (code =? 200)%Z eqn:Hcode; cbn [negb].
    2:{ apply Z.eqb_neq in Hcode. split; [done|]. intros (? & [= Hc _] & _). done. }
    apply Z.eqb_eq in Hcode. subst code.
    destruct (String.eqb destination "pomf").
    + destruct (json_Unmarshal env respBody) as [result|] eqn:Hjson.
      2:{ split; [done|]. intros (rb & [= <-] & result & Hr & _). congruence. }
      destruct (Success result) eqn:Hsucc; cbn [negb].
      2:{ split; [done|]. intros (rb & [= <-] & result' & Hr & Hs & _). congruence. }
      destruct (Files result) as [|url0 files] eqn:Hfiles.
      * split; [done|]. intros (rb & [= <-] & result' & Hr & _ & Hh).
        rewrite Hjson in Hr. injection Hr as <-. by rewrite Hfiles in Hh.
      * split.
        -- intros [= <-]. exists respBody. split; [done|]. exists result.
           by rewrite Hfiles.
        -- intros (rb & [= <-] & result' & Hr & _ & Hh).
           rewrite Hjson in Hr. injection Hr as <-. rewrite Hfiles in Hh.
           simpl in Hh. by injection Hh as <-.
    + split.
      * intros [= <-]. by exists respBody.
      * by intros (rb & [= <-] & ->).
Qed.

Lemma forward_success_witness :
  let env := mkEnv (fun _ => "0f1e2d") (fun _ _ => Responded 200 "{pomf reply}")
                   (fun _ => Some (mkPomf true ["https://pomf.lain.la/f/x.bin";
                                                "https://pomf.lain.la/f/y.bin"] ""))
                   false false in
  (forwardToDestination env exampleWorld "pomf" "/tmp/temp/a.bin" "a.bin" "" "1h").2
  = Ok "https://pomf.lain.la/f/x.bin" /\
  (forwardToDestination (exampleEnv (Responded 200 "") false) exampleWorld
                        "catbox" "/tmp/temp/a.bin" "a.bin" "" "1h").2
  = Ok "".
Proof.
  intros env. split.
  - apply (forward_success env exampleWorld "pomf" "/tmp/temp/a.bin" "a.bin" "" "1h"
             "https://pomf.lain.la/upload.php" "https://pomf.lain.la/f/x.bin"
             (mkBody [] "files[]" "a.bin" (list_byte_of_string "A")));
      [reflexivity | reflexivity |].
    exists "{pomf reply}". split; [reflexivity|]. simpl. by eexists.
  - apply (forward_success (exampleEnv (Responded 200 "") false) exampleWorld
             "catbox" "/tmp/temp/a.bin" "a.bin" "" "1h"
             "https://catbox.moe/user/api.php" ""
             (mkBody [("reqtype", "fileupload")] "fileToUpload" "a.bin"
                     (list_byte_of_string "A")));
      [reflexivity | reflexivity |].
    exists "". split; reflexivity.
Defined.

(** ** Chunk store: what an upload changes *)

Lemma filepath_Join_inj (dir name name' : string) :
  filepath_Join dir name = filepath_Join dir name' -> name = name'.
Proof.
  unfold filepath_Join. intros H.
  apply String.app_inj in H. by apply (String.app_inj "/") in H.
Qed.

(** A chunk upload whose session id and chunk name are single path
    elements, accepted or not, changes nothing but the directory of the
    session it names: [tempDir], the cache table, the trace and every other
    session are as before. *)
Theorem chunk_upload_touches_one_session (w : World) (r : Request) :
  pathElement (FormValue r "uploadId") ->
  pathElement ("chunk_" +:+ FormValue r "index") ->
  let w' := (chunkHandler w r).1 in
  temp (fs w') = temp (fs w) /\
  tempWritable (fs w') = tempWritable (fs w) /\
  db w' = db w /\
  trace w' = trace w /\
  (forall path, path <> filepath_Join uploadsDir (FormValue r "uploadId") ->
                uploads (fs w') !! path = uploads (fs w) !! path) /\
  (forall other, other <> FormValue r "uploadId" -> sessionDir w' other = sessionDir w other).
Proof.
  intros _ _ w'.
  assert (Hframe : temp (fs w') = temp (fs w) /\
                   tempWritable (fs w') = tempWritable (fs w) /\
                   db w' = db w /\ trace w' = trace w /\
                   forall path, path <> filepath_Join uploadsDir (FormValue r "uploadId") ->
                                uploads (fs w') !! path = uploads (fs w) !! path).
  { subst w'. unfold chunkHandler.
    destruct (negb (formParses r)); [done|].
    destruct (String.eqb (FormValue r "uploadId") "" || String.eqb (FormValue r "index") "");
      [done|].
    destruct (formFiles r !! "chunk") as [[hdr data]|]; [|done].
    unfold writeChunk, os_MkdirAll.
    destruct (uploads (fs w) !! filepath_Join uploadsDir (FormValue r "uploadId"))
      as [d|] eqn:Hd; cbn [uploads].
    - rewrite Hd.
      destruct (dirLookup d ("chunk_" +:+ FormValue r "index")) as [[]|]; simpl;
        repeat split; try done; intros path Hpath; by rewrite lookup_insert_ne.
    - rewrite lookup_insert_eq. simpl.
      repeat split; try done. intros path Hpath. by rewrite !lookup_insert_ne. }
  destruct Hframe as (H1 & H2 & H3 & H4 & H5). repeat split; try done.
  intros other Hother. unfold sessionDir. rewrite H5; [done|].
  intros Heq. by apply filepath_Join_inj in Heq.
Qed.

Lemma chunk_upload_touches_one_session_witness :
  let w := receiveChunks exampleWorld [chunkRequest "other" "0" (list_byte_of_string "A")] in
  let w' := (chunkHandler w (chunkRequest "s" "0" (list_byte_of_string "B"))).1 in
  sessionDir w' "s" = [("chunk_0", Regular (list_byte_of_string "B"))] /\
  sessionDir w' "other" = sessionDir w "other" /\
  temp (fs w') = temp (fs w).
Proof.
  intros w w'. split; [reflexivity|].
  destruct (chunk_upload_touches_one_session w
              (chunkRequest "s" "0" (list_byte_of_string "B")))
    as (Htemp & _ & _ & _ & _ & Hother).
  - vm_compute. repeat split; discriminate.
  - vm_compute. repeat split; discriminate.
  - split; [|exact Htemp]. apply Hother. vm_compute. discriminate.
Defined.

(** ** Chunk store: the listing stays in name order *)

Lemma compare_lt_trans (a b c : string) :
  String.compare a b = Lt -> String.compare b c = Lt -> String.compare a c = Lt.
Proof.
  intros Hab Hbc.
  apply OrderedTypeEx.String_as_OT.cmp_lt in Hab, Hbc.
  apply OrderedTypeEx.String_as_OT.cmp_lt.
  by eapply OrderedTypeEx.String_as_OT.lt_trans.
Qed.

Lemma compare_refl (a : string) : String.compare a a = Eq.
Proof. by apply OrderedTypeEx.String_as_OT.cmp_eq. Qed.

Lemma compare_gt_lt (a b : string) : String.compare a b = Gt -> String.compare b a = Lt.
Proof. intros H. rewrite String.compare_antisym, H. reflexivity. Qed.

Lemma dirPut_elem (name : string) (n : node) (d : dir) (e : string * node) :
  e ∈ dirPut name n d -> e = (name, n) \/ e ∈ d.
Proof.
  induction d as [|[k v] d IH]; simpl.
  - intros He. apply list_elem_of_singleton in He. by left.
  - destruct (String.compare name k).
    + intros He. apply elem_of_cons in He as [-> | He]; [by left|].
      right. by apply list_elem_of_further.
    + intros He. apply elem_of_cons in He as [-> | He]; [by left | by right].
    + intros He. apply elem_of_cons in He as [-> | He]; [right; apply list_elem_of_here|].
      destruct (IH He) as [-> | Hin]; [by left|]. right. by apply list_elem_of_further.
Qed.

(** Adding or replacing an entry keeps a listing in strict name order. *)
Lemma dirPut_sorted (name : string) (n : node) (d : dir) :
  sortedByName d -> sortedByName (dirPut name n d).
Proof.
  unfold sortedByName. induction d as [|[k v] d IH]; intros Hs; simpl.
  - repeat constructor.
  - apply StronglySorted_inv in Hs as [Hs Hall].
    destruct (String.compare name k) eqn:Hcmp.
    + apply String.compare_eq_iff in Hcmp. subst k. by constructor.
    + constructor; [by constructor|]. constructor; [done|].
      eapply Forall_impl; [exact Hall|]. intros e He. simpl in *.
      by eapply compare_lt_trans.
    + constructor; [by apply IH|]. apply Forall_forall. intros e He.
      apply dirPut_elem in He as [-> | He]; simpl.
      * by apply compare_gt_lt.
      * rewrite Forall_forall in Hall. by apply Hall.
Qed.

(** A listing in strict name order has no name twice. *)
Lemma sortedByName_NoDup (d : dir) : sortedByName d -> NoDup (map fst d).
Proof.
  unfold sortedByName. induction 1 as [|[k v] d Hs IH Hall]; simpl; [constructor|].
  apply NoDup_cons. split; [|done].
  intros Hin. apply list_elem_of_In, in_map_iff in Hin as [[k' v'] [Hk Hin]].
  simpl in Hk. subst k'. rewrite Forall_forall in Hall.
  apply list_elem_of_In in Hin. specialize (Hall _ Hin). simpl in Hall.
  by rewrite compare_refl in Hall.
Qed.

(** The order [os.ReadDir] promises is an invariant of the chunk store: if
    every session lists in strict name order, so it does after a chunk
    upload, whatever the upload; in particular no listing ever has a name
    twice. *)
Theorem chunk_upload_keeps_listings_sorted (w : World) (r : Request) :
  listingsSorted w ->
  listingsSorted (chunkHandler w r).1 /\
  forall path d, uploads (fs (chunkHandler w r).1) !! path = Some d -> NoDup (map fst d).
Proof.
  intros Hinv.
  assert (Hsorted : listingsSorted (chunkHandler w r).1).
  { unfold chunkHandler.
    destruct (negb (formParses r)); [done|].
    destruct (String.eqb (FormValue r "uploadId") "" || String.eqb (FormValue r "index") "");
      [done|].
    destruct (formFiles r !! "chunk") as [[hdr data]|]; [|done].
    set (uploadPath := filepath_Join uploadsDir (FormValue r "uploadId")).
    unfold writeChunk, os_MkdirAll.
    assert (Hput : forall d0 : dir,
               sortedByName d0 ->
               forall path d,
                 <[uploadPath := dirPut ("chunk_" +:+ FormValue r "index") (Regular data) d0]>
                   (uploads (fs w)) !! path = Some d ->
                 sortedByName d).
    { intros d0 Hd0 path d Hlook.
      destruct (decide (uploadPath = path)) as [<- | Hne].
      - rewrite lookup_insert_eq in Hlook. injection Hlook as <-. by apply dirPut_sorted.
      - rewrite lookup_insert_ne in Hlook by done. by eapply Hinv. }
    destruct (uploads (fs w) !! uploadPath) as [d0|] eqn:Hd; cbn [uploads].
    - rewrite Hd.
      destruct (dirLookup d0 ("chunk_" +:+ FormValue r "index")) as [[]|]; cbn [fst];
        first [done | intros path d; cbn [setFS fs uploads]; apply Hput; by eapply Hinv].
    - rewrite lookup_insert_eq. cbn [dirLookup fst].
      intros path d. cbn [setFS fs uploads]. rewrite insert_insert_eq.
      apply Hput. constructor. }
  split; [done|]. intros path d Hd. by eapply sortedByName_NoDup, Hsorted.
Qed.

Lemma chunk_upload_keeps_listings_sorted_witness :
  let w := receiveChunks emptyWorld
             [chunkRequest "s" "2" (list_byte_of_string "C");
              chunkRequest "s" "10" (list_byte_of_string "A")] in
  sessionDir w "s"
  = [("chunk_10", Regular (list_byte_of_string "A"));
     ("chunk_2", Regular (list_byte_of_string "C"))] /\
  listingsSorted w.
Proof.
  intros w. split; [reflexivity|].
  apply (chunk_upload_keeps_listings_sorted _ (chunkRequest "s" "10" (list_byte_of_string "A"))).
  apply (chunk_upload_keeps_listings_sorted _ (chunkRequest "s" "2" (list_byte_of_string "C"))).
  intros path d Hd. vm_compute in Hd. discriminate Hd.
Defined.

(** ** Chunk store: rewriting a chunk *)

Lemma dirLookup_dirPut (name : string) (n : node) (d : dir) :
  dirLookup (dirPut name n d) name = Some n.
Proof.
  induction d as [|[k v] d IH]; simpl.
  - by rewrite String.eqb_refl.
  - destruct (String.compare name k) eqn:Hcmp; simpl.
    + by rewrite String.eqb_refl.
    + by rewrite String.eqb_refl.
    + destruct (String.eqb k name) eqn:Hk; [|done].
      apply String.eqb_eq in Hk. subst k. by rewrite compare_refl in Hcmp.
Qed.

Lemma dirLookup_dirPut_ne (name k' : string) (n : node) (d : dir) :
  k' <> name -> dirLookup (dirPut name n d) k' = dirLookup d k'.
Proof.
  intros Hne. induction d as [|[k v] d IH]; simpl.
  - apply not_eq_sym, String.eqb_neq in Hne. by rewrite Hne.
  - destruct (String.compare name k) eqn:Hcmp; simpl.
    + apply String.compare_eq_iff in Hcmp. subst k.
      apply not_eq_sym, String.eqb_neq in Hne. by rewrite Hne.
    + apply not_eq_sym, String.eqb_neq in Hne. by rewrite Hne.
    + by rewrite IH.
Qed.

Lemma dirPut_names (name : string) (n : node) (d : dir) :
  sortedByName d -> name ∈ map fst d -> map fst (dirPut name n d) = map fst d.
Proof.
  unfold sortedByName. induction d as [|[k v] d IH]; intros Hs Hin; simpl.
  - by apply elem_of_nil in Hin.
  - apply StronglySorted_inv in Hs as [Hs Hall]. simpl in Hin.
    destruct (String.compare name k) eqn:Hcmp; simpl.
    + apply String.compare_eq_iff in Hcmp. by subst k.
    + exfalso. apply elem_of_cons in Hin as [-> | Hin].
      * by rewrite compare_refl in Hcmp.
      * apply list_elem_of_In, in_map_iff in Hin as [[k' v'] [Hk Hin]].
        simpl in Hk. subst k'. rewrite Forall_forall in Hall.
        apply list_elem_of_In in Hin. specialize (Hall _ Hin). simpl in Hall.
        pose proof (compare_lt_trans _ _ _ Hcmp Hall) as Hbad.
        by rewrite compare_refl in Hbad.
    + f_equal. apply IH; [done|].
      apply elem_of_cons in Hin as [-> | Hin]; [|done].
      by rewrite compare_refl in Hcmp.
Qed.

(** The last write wins.  When a chunk upload whose session id and chunk
    name are single path elements is answered 200, the session has the new
    payload under that name afterwards, every other entry is as before, and
    when the name was already listed the listing has the same names: the
    old payload is replaced, not kept beside the new one. *)
Theorem chunk_upload_overwrites (w : World) (uploadId : string) (r : Request)
    (u : string * list byte) :
  carries uploadId r u ->
  pathElement uploadId ->
  pathElement ("chunk_" +:+ u.1) ->
  status (chunkHandler w r).2 = 200%Z ->
  let w' := (chunkHandler w r).1 in
  dirLookup (sessionDir w' uploadId) ("chunk_" +:+ u.1) = Some (Regular u.2) /\
  (forall name, name <> "chunk_" +:+ u.1 ->
                dirLookup (sessionDir w' uploadId) name
                = dirLookup (sessionDir w uploadId) name) /\
  (sortedByName (sessionDir w uploadId) ->
   "chunk_" +:+ u.1 ∈ map fst (sessionDir w uploadId) ->
   map fst (sessionDir w' uploadId) = map fst (sessionDir w uploadId)).
Proof.
  intros (Hparse & Hid & Hidx & Hfile) _ _ Hok w'.
  assert (Hdirs : sessionDir w' uploadId
                  = dirPut ("chunk_" +:+ u.1) (Regular u.2) (sessionDir w uploadId)).
  { subst w'. revert Hok. unfold chunkHandler. rewrite Hparse, Hid, Hidx. cbn [negb].
    destruct (String.eqb uploadId "" || String.eqb u.1 ""); [by intros [=]|].
    destruct (formFiles r !! "chunk") as [[hdr data]|]; [|by intros [=]].
    simpl in Hfile. injection Hfile as ->.
    unfold sessionDir in *. unfold writeChunk, os_MkdirAll.
    destruct (uploads (fs w) !! filepath_Join uploadsDir uploadId) as [d|] eqn:Hd;
      simpl in *.
    - rewrite Hd.
      destruct (dirLookup d ("chunk_" +:+ u.1)) as [[]|];
        simpl; intros Hok; try discriminate Hok; by rewrite lookup_insert_eq.
    - rewrite lookup_insert_eq. simpl. intros _. by rewrite lookup_insert_eq. }
  rewrite Hdirs.
  split; [apply dirLookup_dirPut|].
  split; [intros name Hname; by apply dirLookup_dirPut_ne|].
  intros Hs Hin. by apply dirPut_names.
Qed.

Lemma chunk_upload_overwrites_witness :
  let w := receiveChunks emptyWorld [chunkRequest "s" "0" (list_byte_of_string "old")] in
  let w' := (chunkHandler w (chunkRequest "s" "0" (list_byte_of_string "new"))).1 in
  sessionDir w "s" = [("chunk_0", Regular (list_byte_of_string "old"))] /\
  sessionDir w' "s" = [("chunk_0", Regular (list_byte_of_string "new"))] /\
  dirLookup (sessionDir w' "s") ("chunk_" +:+ "0") = Some (Regular (list_byte_of_string "new")).
Proof.
  intros w w'. split; [reflexivity|]. split; [reflexivity|].
  apply (chunk_upload_overwrites w "s" (chunkRequest "s" "0" (list_byte_of_string "new"))
           ("0", list_byte_of_string "new")).
  - repeat split.
  - repeat split; discriminate.
  - repeat split; discriminate.
  - reflexivity.
Defined.

(** ** Assembler: what assembly changes *)

(** The copy loop stops on nothing but a chunk it cannot open or copy. *)
Lemma copyChunks_error (entries : dir) (names : list string) (written written' : list byte)
    (e : AssembleError) :
  copyChunks entries names written = (written', Some e) ->
  exists chunkName,
    chunkName ∈ names /\ (e = OpenChunkFailed chunkName \/ e = WriteChunkFailed chunkName).
Proof.
  revert written. induction names as [|name names IH]; intros written; simpl; [done|].
  destruct (dirLookup entries name) as [[]|].
  - intros [= <- <-]. exists name. split; [apply list_elem_of_here | by right].
  - intros H. destruct (IH _ H) as [c [Hc He]].
    exists c. split; [by apply list_elem_of_further | done].
  - intros [= <- <-]. exists name. split; [apply list_elem_of_here | by left].
  - intros [= <- <-]. exists name. split; [apply list_elem_of_here | by right].
  - intros [= <- <-]. exists name. split; [apply list_elem_of_here | by left].
Qed.

(** What assembly leaves in place. *)
Lemma assembleChunks_frame (fs : FS) (uuid chunkDir filename : string) :
  let res := assembleChunks fs uuid chunkDir filename in
  uploads res.1 = uploads fs /\
  tempWritable res.1 = tempWritable fs /\
  (forall p, p <> finalPathOf uuid filename -> temp res.1 !! p = temp fs !! p) /\
  (forall p, res.2 = Ok p -> p = finalPathOf uuid filename /\ is_Some (temp res.1 !! p)).
Proof.
  intros res. subst res. unfold assembleChunks, os_Create.
  destruct (os_ReadDir fs chunkDir) as [entries|]; [|by repeat split].
  destruct (tempWritable fs) eqn:Hw; [|by repeat split].
  fold (finalPathOf uuid filename).
  destruct (copyChunks entries (chunkNames entries) []) as [written [e|]]; cbn [fst snd].
  - split; [done|]. split; [done|]. split; [|done].
    intros p Hp. simpl. by rewrite !lookup_insert_ne.
  - split; [done|]. split; [done|]. split.
    { intros p Hp. simpl. by rewrite !lookup_insert_ne. }
    intros p [= <-]. split; [done|]. simpl. rewrite lookup_insert_eq. by eexists.
Qed.

(** Assembly of the session [uploadId] into the artifact [uuid-filename],
    both single path elements, reads the session and writes one file: the
    session directories are as before, so is every file of [tempDir] but
    the artifact, and a success names the artifact's path.  When the
    session directory is missing or the final file cannot be created,
    nothing changes at all; every other failure names a chunk of the
    session that could not be opened or copied. *)
Theorem assemble_touches_only_its_artifact (fs : FS) (uuid uploadId filename : string) :
  pathElement uploadId ->
  pathElement (uuid +:+ "-" +:+ filename) ->
  let chunkDir := filepath_Join uploadsDir uploadId in
  let res := assembleChunks fs uuid chunkDir filename in
  uploads res.1 = uploads fs /\
  tempWritable res.1 = tempWritable fs /\
  (forall p, p <> finalPathOf uuid filename -> temp res.1 !! p = temp fs !! p) /\
  (forall p, res.2 = Ok p -> p = finalPathOf uuid filename /\ is_Some (temp res.1 !! p)) /\
  (forall e, res.2 = Err e ->
             (e = NoChunksFound chunkDir /\ os_ReadDir fs chunkDir = None /\ res.1 = fs) \/
             (e = CreateFinalFailed /\ tempWritable fs = false /\ res.1 = fs) \/
             exists entries chunkName,
               os_ReadDir fs chunkDir = Some entries /\
               chunkName ∈ chunkNames entries /\
               (e = OpenChunkFailed chunkName \/ e = WriteChunkFailed chunkName)).
Proof.
  intros _ _ chunkDir res.
  destruct (assembleChunks_frame fs uuid chunkDir filename) as (H1 & H2 & H3 & H4).
  fold res in H1, H2, H3, H4. repeat split; try done; try by apply H4.
  subst res. unfold assembleChunks, os_Create.
  destruct (os_ReadDir fs chunkDir) as [entries|]; [|intros e [= <-]; by left].
  destruct (tempWritable fs) eqn:Hw; [|intros e [= <-]; right; by left].
  destruct (copyChunks entries (chunkNames entries) []) as [written [e|]] eqn:Hcopy;
    cbn [fst snd]; [|done].
  intros e' [= <-]. right. right.
  destruct (copyChunks_error _ _ _ _ _ Hcopy) as [c [Hc He]].
  by exists entries, c.
Qed.

Lemma assemble_touches_only_its_artifact_witness :
  let w := receiveChunks exampleWorld
             [chunkRequest "s" "0" (list_byte_of_string "B");
              chunkRequest "other" "0" (list_byte_of_string "C")] in
  let res := assembleChunks (fs w) "u" (filepath_Join uploadsDir "s") "f.bin" in
  res.2 = Ok "/tmp/temp/u-f.bin" /\
  uploads res.1 = uploads (fs w) /\
  temp res.1 !! "/tmp/temp/a.bin" = Some (list_byte_of_string "A").
Proof.
  intros w res. split; [reflexivity|].
  destruct (assemble_touches_only_its_artifact (fs w) "u" "s" "f.bin")
    as (Hup & _ & Htemp & _).
  - repeat split; discriminate.
  - repeat split; discriminate.
  - split; [exact Hup|]. fold res in Htemp. rewrite Htemp; [reflexivity | discriminate].
Defined.

(** ** Handlers: what a finished request leaves behind *)



(** After a finish request whose session id and artifact name are single
    path elements and whose assembly succeeded, [tempDir] is what it was
    before the request, less the artifact's path: whatever the pipeline
    answers, hit, miss or failure, the artifact is removed and nothing new
    is left. *)
Theorem finish_success_leaves_no_artifact (env : Env) (uuid : string) (w : World)
    (r : Request) (fs1 : FS) (finalPath : string) :
  pathElement (FormValue r "uploadId") ->
  pathElement (uuid +:+ "-" +:+ FormValue r "filename") ->
  FormValue r "filename" <> "" ->
  FormValue r "destination" <> "" ->
  assembleChunks (fs w) uuid (filepath_Join uploadsDir (FormValue r "uploadId"))
                 (FormValue r "filename") = (fs1, Ok finalPath) ->
  let w' := (finishHandler env uuid w r).1 in
  temp (fs w') = delete finalPath (temp (fs w)) /\
  (forall p x, temp (fs w') !! p = Some x -> temp (fs w) !! p = Some x).
Proof.
  intros [Hid _] _ Hname Hdest Hasm w'.
  assert (Htemp : temp (fs w') = delete finalPath (temp (fs w))).
  { destruct (assembleChunks_frame (fs w) uuid
                (filepath_Join uploadsDir (FormValue r "uploadId")) (FormValue r "filename"))
      as (_ & _ & Hframe & Hok).
    rewrite Hasm in Hframe, Hok. cbn [fst snd] in *.
    destruct (Hok finalPath eq_refl) as [Hpath _].
    subst w'. unfold finishHandler.
    apply String.eqb_neq in Hid, Hname, Hdest. rewrite Hid, Hname, Hdest. cbn [orb].
    rewrite Hasm.
    pose proof (pipeline_fs env (setFS w fs1) finalPath
                  (FormValue r "filename") (FormValue r "userhash")
                  (FormValue r "destination")
                  (if String.eqb (FormValue r "time") "" then "1h" else FormValue r "time"))
      as Hfs.
    destruct (processAndForwardFile env (setFS w fs1) _ _ _ _ _) as [w1 resp].
    cbn [fst snd setFS fs] in *. rewrite Hfs. simpl.
    apply map_eq. intros p. destruct (decide (p = finalPath)) as [-> | Hne].
    - by rewrite !lookup_delete_eq.
    - rewrite !lookup_delete_ne by done. apply Hframe. by rewrite <- Hpath. }
  split; [done|]. intros p x. rewrite Htemp. intros Hp.
  apply lookup_delete_Some in Hp. tauto.
Qed.

Lemma finish_success_leaves_no_artifact_witness :
  let env := exampleEnv (Responded 500 "backend down") false in
  let w := receiveChunks exampleWorld [chunkRequest "s" "0" (list_byte_of_string "A")] in
  let w' := (finishHandler env "u" w (finishRequest "s" "f.bin" "catbox")).1 in
  temp (fs w) = {["/tmp/temp/a.bin" := list_byte_of_string "A"]} /\
  temp (fs w') = delete (finalPathOf "u" "f.bin") (temp (fs w)).
Proof.
  intros env w w'. split; [reflexivity|].
  eapply (finish_success_leaves_no_artifact env "u" w (finishRequest "s" "f.bin" "catbox")).
  - vm_compute. repeat split; discriminate.
  - vm_compute. repeat split; discriminate.
  - discriminate.
  - discriminate.
  - reflexivity.
Defined.

(** A direct upload never leaves a file behind: after the request, whatever
    its outcome, the session directories are untouched and [tempDir] holds
    nothing it did not hold before; the temporary copy of the upload is
    gone as soon as it was created. *)
Theorem direct_upload_leaves_no_file (env : Env) (uuid : string) (w : World) (r : Request) :
  let w' := (directHandler env uuid w r).1 in
  uploads (fs w') = uploads (fs w) /\
  (temp (fs w') = temp (fs w) \/
   exists headerFilename data,
     formParses r = true /\
     formFiles r !! "file" = Some (headerFilename, data) /\
     tempWritable (fs w) = true /\
     temp (fs w')
     = delete (filepath_Join tempDir (uuid +:+ filepath_Ext headerFilename)) (temp (fs w))) /\
  (forall p x, temp (fs w') !! p = Some x -> temp (fs w) !! p = Some x).
Proof.
  intros w'.
  assert (Hcases : uploads (fs w') = uploads (fs w) /\
                   (temp (fs w') = temp (fs w) \/
                    exists headerFilename data,
                      formParses r = true /\
                      formFiles r !! "file" = Some (headerFilename, data) /\
                      tempWritable (fs w) = true /\
                      temp (fs w')
                      = delete (filepath_Join tempDir (uuid +:+ filepath_Ext headerFilename))
                               (temp (fs w)))).
  { subst w'. unfold directHandler.
    destruct (formParses r) eqn:Hparse; cbn [negb]; [|by split; [|left]].
    destruct (formFiles r !! "file") as [[headerFilename data]|] eqn:Hfile;
      [|by split; [|left]].
    unfold os_Create. destruct (tempWritable (fs w)) eqn:Hw; [|by split; [|left]].
    set (tempPath := filepath_Join tempDir (uuid +:+ filepath_Ext headerFilename)).
    set (w0 := setFS w _).
    pose proof (pipeline_fs env w0 tempPath headerFilename (FormValue r "userhash")
                  (FormValue r "destination")
                  (if String.eqb (FormValue r "time") "" then "1h" else FormValue r "time"))
      as Hfs.
    destruct (processAndForwardFile env w0 tempPath headerFilename _ _ _) as [w1 resp].
    cbn [fst snd setFS fs] in *. rewrite Hfs. subst w0. simpl.
    split; [done|]. right. exists headerFilename, data.
    repeat split; try done.
    by rewrite insert_insert_eq, delete_insert_eq. }
  destruct Hcases as [Hup Htemp]. split; [done|]. split; [done|].
  intros p x Hp. destruct Htemp as [Hsame | (name & data & _ & _ & _ & Hdel)].
  - by rewrite <- Hsame.
  - rewrite Hdel in Hp. apply lookup_delete_Some in Hp. tauto.
Qed.

(** ** Handlers: what a finish request sends *)

(** Every POST of the pipeline goes to the URL of the destination and
    carries the body built from the artifact. *)
Lemma pipeline_posted (env : Env) (w : World)
    (filePath filename userhash destination timeVal url : string) (body : MultipartBody) :
  In (Posted url body)
     (newEvents w (processAndForwardFile env w filePath filename userhash destination timeVal).1) ->
  urlMap destination = Some url /\
  multipartBody w destination filePath filename userhash timeVal = Ok body.
Proof.
  assert (Hfwd : forall w0 evs,
             fs w0 = fs w -> trace w0 = trace w ++ evs ->
             (forall u b, ~ In (Posted u b) evs) ->
             forall w3 res,
               forwardToDestination env w0 destination filePath filename userhash timeVal
               = (w3, res) ->
               forall evs',
                 (forall u b, ~ In (Posted u b) evs') ->
                 In (Posted url body) (drop (length (trace w)) (trace w3 ++ evs')) ->
                 urlMap destination = Some url /\
                 multipartBody w destination filePath filename userhash timeVal = Ok body).
  { intros w0 evs Hfs0 Htr0 Hno w3 res Hrun evs' Hno' Hin.
    destruct (forward_effects env w0 destination filePath filename userhash timeVal)
      as (_ & _ & Hcases).
    rewrite Hrun in Hcases. cbn [fst snd] in Hcases.
    rewrite (multipartBody_fs w w0) in Hcases by done.
    destruct Hcases as [[Hsame _] | (u & b & Hurl & Hbody & Htrace)].
    - rewrite Hsame, Htr0, <- app_assoc, drop_app_length in Hin.
      apply in_app_or in Hin as [Hin | Hin]; [by apply Hno in Hin | by apply Hno' in Hin].
    - rewrite Htrace, Htr0, <- !app_assoc, drop_app_length in Hin.
      apply in_app_or in Hin as [Hin | Hin]; [by apply Hno in Hin|].
      simpl in Hin. destruct Hin as [[= <- <-] | Hin]; [done | by apply Hno' in Hin]. }
  unfold newEvents, processAndForwardFile.
  destruct (String.eqb destination "litterbox").
  { destruct (forwardToDestination env w destination filePath filename userhash timeVal)
      as [w1 res] eqn:Hrun.
    intros Hin.
    apply (Hfwd w [] eq_refl (eq_sym (app_nil_r _)) (fun _ _ H => H) w1 res Hrun []
             (fun _ _ H => H)).
    rewrite app_nil_r. by destruct res. }
  unfold calculateFileHash, GetURLsByHash.
  destruct (temp (fs w) !! filePath) as [data|]; cbn [fst snd].
  2:{ rewrite drop_all. by intros []. }
  set (hash := sha256_hex env data).
  assert (Hno2 : forall u b, ~ In (Posted u b) [Hashed filePath; CacheLookup hash]).
  { intros u b. not_in_events. }
  assert (Htr2 : trace (emit (emit w (Hashed filePath)) (CacheLookup hash))
                 = trace w ++ [Hashed filePath; CacheLookup hash]).
  { simpl. by rewrite <- app_assoc. }
  destruct (queryFails env); cbn [fst snd].
  { rewrite Htr2, drop_app_length. intros Hin. by apply Hno2 in Hin. }
  destruct (negb (String.eqb (cachedURL destination _) "")); cbn [fst snd].
  { rewrite Htr2, drop_app_length. intros Hin. by apply Hno2 in Hin. }
  set (w2 := emit (emit w (Hashed filePath)) (CacheLookup hash)) in *.
  destruct (forwardToDestination env w2 destination filePath filename userhash timeVal)
    as [w3 [u|err]] eqn:Hrun; cbn [fst snd].
  - intros Hin.
    apply (Hfwd w2 _ eq_refl Htr2 Hno2 w3 _ Hrun
             (drop (length (trace w3)) (trace (storeUrl env w3 hash destination u).1))).
    + intros u' b'. unfold storeUrl.
      destruct (String.eqb destination "catbox");
        [|destruct (String.eqb destination "pomf")];
        try destruct (execFails env); simpl;
        rewrite ?drop_app_length, ?drop_all; not_in_events.
    + revert Hin.
      destruct (storeUrl env w3 hash destination u) as [w4 e] eqn:Hst. cbn [fst].
      assert (Hext : trace w4 = trace w3 ++ drop (length (trace w3)) (trace w4)).
      { pose proof (f_equal fst Hst) as H4. cbn [fst] in H4. subst w4. unfold storeUrl.
        destruct (String.eqb destination "catbox");
          [|destruct (String.eqb destination "pomf")];
          try destruct (execFails env); simpl;
          by rewrite ?drop_app_length, ?drop_all, ?app_nil_r. }
      by rewrite <- Hext.
  - intros Hin.
    apply (Hfwd w2 _ eq_refl Htr2 Hno2 w3 _ Hrun [] (fun _ _ H => H)).
    by rewrite app_nil_r.
Qed.

(** A finish request forwards what assembly wrote: the answer is the
    pipeline's answer for the artifact, and every POST the request makes
    goes to the URL of the destination with the artifact's bytes as the
    file, named by the request's file name. *)
Theorem finish_forwards_the_artifact (env : Env) (uuid : string) (w : World) (r : Request)
    (fs1 : FS) (finalPath : string) (bytes : list byte) :
  FormValue r "uploadId" <> "" ->
  FormValue r "filename" <> "" ->
  FormValue r "destination" <> "" ->
  assembleChunks (fs w) uuid (filepath_Join uploadsDir (FormValue r "uploadId"))
                 (FormValue r "filename") = (fs1, Ok finalPath) ->
  temp fs1 !! finalPath = Some bytes ->
  let res := finishHandler env uuid w r in
  res.2 = (processAndForwardFile env (setFS w fs1) finalPath (FormValue r "filename")
             (FormValue r "userhash") (FormValue r "destination")
             (if String.eqb (FormValue r "time") "" then "1h" else FormValue r "time")).2 /\
  forall url body,
    In (Posted url body) (newEvents w res.1) ->
    urlMap (FormValue r "destination") = Some url /\
    fileData body = bytes /\
    fileName body = FormValue r "filename".
Proof.
  intros Hid Hname Hdest Hasm Hbytes res. subst res. unfold finishHandler.
  apply String.eqb_neq in Hid, Hname, Hdest. rewrite Hid, Hname, Hdest. cbn [orb].
  rewrite Hasm.
  set (timeVal := if String.eqb (FormValue r "time") "" then "1h" else FormValue r "time").
  pose proof (pipeline_posted env (setFS w fs1) finalPath (FormValue r "filename")
                (FormValue r "userhash") (FormValue r "destination") timeVal) as Hposted.
  destruct (processAndForwardFile env (setFS w fs1) finalPath (FormValue r "filename")
              (FormValue r "userhash") (FormValue r "destination") timeVal) as [w1 resp].
  cbn [fst snd] in *. split; [done|].
  intros url body Hin.
  destruct (Hposted url body) as [Hurl Hbody]; [exact Hin|].
  split; [done|].
  pose proof (multipartBody_file _ _ _ _ _ _ _ Hbody) as Hfile.
  cbn [setFS fs] in Hfile. rewrite Hbytes in Hfile. injection Hfile as <-.
  split; [done|].
  revert Hbody. unfold multipartBody. cbn [setFS fs]. rewrite Hbytes.
  destruct (String.eqb (FormValue r "destination") "pomf"); [by intros [= <-]|].
  destruct (String.eqb (FormValue r "destination") "catbox"
            || String.eqb (FormValue r "destination") "litterbox"); [by intros [= <-] | done].
Qed.

(** Scenario 1 through to the backend: chunks 1, 0, 2 with payloads "B",
    "A", "C", then a finish request for litterbox, POST "ABC". *)
Lemma finish_forwards_the_artifact_witness :
  let env := exampleEnv (Responded 200 "https://litter.catbox.moe/abc.bin") false in
  let w := receiveChunks emptyWorld
             [chunkRequest "s" "1" (list_byte_of_string "B");
              chunkRequest "s" "0" (list_byte_of_string "A");
              chunkRequest "s" "2" (list_byte_of_string "C")] in
  let res := finishHandler env "u" w (finishRequest "s" "f.bin" "litterbox") in
  res.2 = mkResponse 200 (JsonUrl "https://litter.catbox.moe/abc.bin") /\
  newEvents w res.1
  = [Posted "https://litterbox.catbox.moe/resources/internals/api.php"
            (mkBody [("reqtype", "fileupload"); ("time", "1h")] "fileToUpload" "f.bin"
                    (list_byte_of_string "ABC"))] /\
  fileData (mkBody [("reqtype", "fileupload"); ("time", "1h")] "fileToUpload" "f.bin"
                   (list_byte_of_string "ABC")) = list_byte_of_string "ABC".
Proof.
  intros env w res. split; [reflexivity|]. split; [reflexivity|].
  eapply (finish_forwards_the_artifact env "u" w (finishRequest "s" "f.bin" "litterbox")).
  - discriminate.
  - discriminate.
  - discriminate.
  - reflexivity.
  - reflexivity.
  - left. reflexivity.
Defined.

(** ** Assembler: neighbours after the sort *)

Lemma Sorted_lookup_next {A : Type} (R : A -> A -> Prop) (l : list A) (i : nat) (a b : A) :
  Sorted R l -> l !! i = Some a -> l !! S i = Some b -> R a b.
Proof.
  intros Hs. revert i. induction Hs as [|x l Hs IH Hhd]; intros i Hi Hnext; [done|].
  destruct i as [|i]; simpl in *.
  - simplify_eq. destruct Hhd as [|y l Hxy]; [done|]. simpl in Hnext. by simplify_eq.
  - by eapply IH.
Qed.

(** Whatever the names of a session of at most [maxInsertion] chunks, the
    sort never leaves two neighbours out of order: when a chunk and the
    chunk right after it both have an index that parses, the first index
    is not the greater one.  (Across an entry that does not parse, nothing
    of the kind holds.) *)
Theorem sorted_neighbours_are_in_order (entries : dir) (i : nat) (a b : string) (na nb : Z) :
  (length (List.filter isChunkEntry entries) <= maxInsertion)%nat ->
  chunkNames entries !! i = Some a ->
  chunkNames entries !! S i = Some b ->
  chunkIndex a = Some na -> chunkIndex b = Some nb ->
  (na <= nb)%Z.
Proof.
  intros _ Ha Hb Hna Hnb.
  assert (Hs : Sorted notBefore (chunkNames entries)).
  { unfold chunkNames, sort_Slice. apply insertionSort_sorted, chunkLess_asym. }
  pose proof (Sorted_lookup_next _ _ _ _ _ Hs Ha Hb) as Hab.
  unfold notBefore, chunkLess in Hab. rewrite Hna, Hnb in Hab.
  apply Z.ltb_ge in Hab. lia.
Qed.

Lemma sorted_neighbours_are_in_order_witness :
  let entries : dir :=
    [("chunk_10", Regular []); ("chunk_2", Regular []); ("chunk_x", Regular [])] in
  chunkNames entries = ["chunk_2"; "chunk_10"; "chunk_x"] /\ (2 <= 10)%Z.
Proof.
  intros entries. split; [reflexivity|].
  apply (sorted_neighbours_are_in_order entries 0 "chunk_2" "chunk_10" 2 10).
  - vm_compute. lia.
  - reflexivity.
  - reflexivity.
  - reflexivity.
  - reflexivity.
Defined.

(** ** Download passthrough *)

(** The proxy contacts upstream at most once per request and only for a GET
    of a non-empty path: the request it sends is a GET of the target host
    followed by the path without the route prefix, with the caller's
    [Range] header when there is one; and a mirrored reply is what upstream
    answered to that request, error statuses included. *)
Theorem proxy_sends_at_most_one_get (targetHost stripPrefix : string) (env : ProxyEnv)
    (r : ProxyRequest) :
  let res := createProxyHandler targetHost stripPrefix env r in
  (forall req,
      In req res.1 ->
      res.1 = [req] /\
      Method r = "GET" /\
      strings_TrimPrefix (Path r) stripPrefix <> "" /\
      targetURL req = targetHost +:+ strings_TrimPrefix (Path r) stripPrefix /\
      rangeHeader req = (if String.eqb (Range r) "" then None else Some (Range r))) /\
  (forall resp, res.2 = Mirrored resp -> exists req, res.1 = [req] /\ upstream env req = Some resp) /\
  (res.1 = [] -> exists msg code, res.2 = ProxyError msg code /\ code <> StatusBadGateway).
Proof.
  intros res. subst res. unfold createProxyHandler.
  destruct (String.eqb (Method r) "GET") eqn:Hm; cbn [negb].
  2:{ split; [by intros req []|]. split; [done|]. intros _. by eexists _, _. }
  apply String.eqb_eq in Hm.
  destruct (String.eqb (strings_TrimPrefix (Path r) stripPrefix) "") eqn:Hp.
  { split; [by intros req []|]. split; [done|]. intros _. by eexists _, _. }
  apply String.eqb_neq in Hp.
  destruct (newRequestFails env _).
  { split; [by intros req []|]. split; [done|]. intros _. by eexists _, _. }
  set (req0 := mkUpstreamRequest _ _).
  assert (Hreq : forall req, In req [req0] ->
                   [req0] = [req] /\ Method r = "GET" /\
                   strings_TrimPrefix (Path r) stripPrefix <> "" /\
                   targetURL req = targetHost +:+ strings_TrimPrefix (Path r) stripPrefix /\
                   rangeHeader req
                   = (if String.eqb (Range r) "" then None else Some (Range r))).
  { intros req [<- | []]. repeat split; try done. subst req0. simpl.
    by destruct (String.eqb (Range r) ""). }
  destruct (upstream env req0) as [resp|] eqn:Hup; cbn [fst snd].
  - split; [done|]. split; [|done]. intros resp' [= <-]. by exists req0.
  - split; [done|]. split; done.
Qed.

Lemma TrimPrefix_self (s : string) : strings_TrimPrefix s s = "".
Proof.
  rewrite <- (append_empty_r s) at 1. apply TrimPrefix_append.
Qed.

(** The route of a download: a GET of the route prefix followed by a file
    path is sent to the target host followed by that file path, and the
    reply is upstream's own, or 502 when upstream cannot be reached; a GET
    of the bare prefix is answered 400 without contacting upstream. *)
Theorem proxy_strips_the_route_prefix (targetHost stripPrefix rest : string) (env : ProxyEnv)
    (r : ProxyRequest) :
  Method r = "GET" ->
  Path r = stripPrefix +:+ rest ->
  newRequestFails env (targetHost +:+ rest) = false ->
  let req := mkUpstreamRequest (targetHost +:+ rest)
               (if String.eqb (Range r) "" then None else Some (Range r)) in
  createProxyHandler targetHost stripPrefix env r
  = if String.eqb rest ""
    then ([], ProxyError "File path is missing." StatusBadRequest)
    else ([req], match upstream env req with
                 | Some resp => Mirrored resp
                 | None => ProxyError "Bad Gateway" StatusBadGateway
                 end).
Proof.
  intros Hm Hpath Hnew req. subst req. unfold createProxyHandler.
  rewrite Hm, Hpath, TrimPrefix_append. cbn [String.eqb negb Ascii.eqb].
  replace (String.eqb "GET" "GET") with true by reflexivity. cbn [negb].
  destruct (String.eqb rest ""); [done|]. rewrite Hnew.
  destruct (String.eqb (Range r) ""); cbn [negb];
    by destruct (upstream env _).
Qed.

Lemma proxy_strips_the_route_prefix_witness :
  let env := mkProxyEnv (fun _ => false)
               (fun req => if String.eqb (targetURL req) "https://files.catbox.moe/abc.png"
                           then Some (mkUpstream 206 [("Content-Range", ["bytes 0-1/9"])]
                                                 (list_byte_of_string "ab"))
                           else None) in
  createProxyHandler "https://files.catbox.moe/" "/catbox/" env
                     (mkProxyRequest "GET" "/catbox/abc.png" "bytes=0-1")
  = ([mkUpstreamRequest "https://files.catbox.moe/abc.png" (Some "bytes=0-1")],
     Mirrored (mkUpstream 206 [("Content-Range", ["bytes 0-1/9"])]
                          (list_byte_of_string "ab"))).
Proof.
  intros env.
  apply (proxy_strips_the_route_prefix "https://files.catbox.moe/" "/catbox/" "abc.png" env
           (mkProxyRequest "GET" "/catbox/abc.png" "bytes=0-1")); reflexivity.
Defined.

(** ** Assembler: a chunk that fails *)

Lemma copyChunks_app (entries : dir) (pre post : list string) (written : list byte) :
  Forall (fun name => exists data, dirLookup entries name = Some (Regular data)) pre ->
  copyChunks entries (pre ++ post) written
  = copyChunks entries post (written ++ concat (map (chunkData entries) pre)).
Proof.
  intros Hpre. revert written.
  induction Hpre as [|name pre [data Hd] _ IH]; intros written; simpl.
  - by rewrite app_nil_r.
  - unfold chunkData at 1. rewrite Hd, IH. by rewrite <- app_assoc.
Qed.

(** Assembly stops at the first chunk, in sorted order, that cannot be
    opened or copied: the chunks after it are not read, the error names
    the chunk, and the final file is left holding the chunks before it
    followed by whatever part of the failing chunk was copied. *)
Theorem assemble_stops_at_first_failure (fs : FS) (uuid chunkDir filename bad : string)
    (entries : dir) (pre post : list string) (failing : node) :
  os_ReadDir fs chunkDir = Some entries ->
  tempWritable fs = true ->
  chunkNames entries = pre ++ bad :: post ->
  Forall (fun name => exists data, dirLookup entries name = Some (Regular data)) pre ->
  dirLookup entries bad = Some failing ->
  (forall data, failing <> Regular data) ->
  let res := assembleChunks fs uuid chunkDir filename in
  res.2 = Err (match failing with
               | Unreadable => OpenChunkFailed bad
               | _ => WriteChunkFailed bad
               end) /\
  temp res.1 !! finalPathOf uuid filename
  = Some (concat (map (chunkData entries) pre)
          ++ match failing with Faulty data => data | _ => [] end).
Proof.
  intros Hdir Hw Hnames Hpre Hbad Hfail res. subst res.
  unfold assembleChunks, os_Create. rewrite Hdir, Hw, Hnames.
  rewrite copyChunks_app by done. simpl. rewrite Hbad.
  fold (finalPathOf uuid filename).
  destruct failing as [| data | | data]; cbn [fst snd].
  - split; [done|]. simpl. by rewrite lookup_insert_eq, app_nil_r.
  - by destruct (Hfail data).
  - split; [done|]. simpl. by rewrite lookup_insert_eq, app_nil_r.
  - split; [done|]. simpl. by rewrite lookup_insert_eq.
Qed.

Lemma assemble_stops_at_first_failure_witness :
  let entries : dir :=
    [("chunk_0", Regular (list_byte_of_string "A"));
     ("chunk_1", Faulty (list_byte_of_string "b"));
     ("chunk_2", Regular (list_byte_of_string "C"))] in
  let fs := mkFS {["/tmp/uploads/s" := entries]} ∅ true in
  let res := assembleChunks fs "u" "/tmp/uploads/s" "f.bin" in
  res.2 = Err (WriteChunkFailed "chunk_1") /\
  temp res.1 !! finalPathOf "u" "f.bin" = Some (list_byte_of_string "Ab").
Proof.
  intros entries fs res.
  apply (assemble_stops_at_first_failure fs "u" "/tmp/uploads/s" "f.bin" "chunk_1" entries
           ["chunk_0"] ["chunk_2"] (Faulty (list_byte_of_string "b"))).
  - reflexivity.
  - reflexivity.
  - reflexivity.
  - repeat constructor. by eexists.
  - reflexivity.
  - discriminate.
Defined.

(** ** Handlers: what a direct upload sends *)

(** A direct upload sends nothing but the upload: every POST of the request
    goes to the URL of the destination, is made for a form that parsed and
    carried a file, and has the bytes of that file under the name the
    client gave it; the generated name of the temporary copy is never
    sent. *)
Theorem direct_forwards_the_upload (env : Env) (uuid : string) (w : World) (r : Request)
    (url : string) (body : MultipartBody) :
  In (Posted url body) (newEvents w (directHandler env uuid w r).1) ->
  exists headerFilename data,
    formParses r = true /\
    formFiles r !! "file" = Some (headerFilename, data) /\
    urlMap (FormValue r "destination") = Some url /\
    fileData body = data /\
    fileName body = headerFilename.
Proof.
  unfold directHandler, os_Create.
  destruct (formParses r) eqn:Hparse; cbn [negb fst];
    [|by rewrite newEvents_same].
  destruct (formFiles r !! "file") as [[headerFilename data]|] eqn:Hfile; cbn [fst];
    [|by rewrite newEvents_same].
  destruct (tempWritable (fs w)) eqn:Hw; cbn [fst]; [|by rewrite newEvents_same].
  set (tempPath := filepath_Join tempDir (uuid +:+ filepath_Ext headerFilename)).
  set (timeVal := if String.eqb (FormValue r "time") "" then "1h" else FormValue r "time").
  set (w0 := setFS w (writeTemp _ tempPath data)).
  pose proof (pipeline_posted env w0 tempPath headerFilename
                (FormValue r "userhash") (FormValue r "destination") timeVal url body)
    as Hposted.
  destruct (processAndForwardFile env w0 tempPath headerFilename
              (FormValue r "userhash") (FormValue r "destination") timeVal) as [w1 resp].
  cbn [fst snd] in *. intros Hin.
  destruct Hposted as [Hurl Hbody]; [exact Hin|].
  exists headerFilename, data. split; [done|]. split; [done|]. split; [done|].
  pose proof (multipartBody_file _ _ _ _ _ _ _ Hbody) as Hdata.
  subst w0. cbn [setFS fs temp writeTemp] in Hdata. rewrite lookup_insert_eq in Hdata.
  injection Hdata as <-. split; [done|].
  revert Hbody. unfold multipartBody. cbn [setFS fs temp writeTemp].
  rewrite lookup_insert_eq.
  destruct (String.eqb (FormValue r "destination") "pomf"); [by intros [= <-]|].
  destruct (String.eqb (FormValue r "destination") "catbox"
            || String.eqb (FormValue r "destination") "litterbox"); [by intros [= <-] | done].
Qed.

Lemma direct_forwards_the_upload_witness :
  let env := exampleEnv (Responded 200 "https://files.catbox.moe/new.png") false in
  let r := directRequest "cat.png" (list_byte_of_string "PNG") "catbox" in
  let body := mkBody [("reqtype", "fileupload")] "fileToUpload" "cat.png"
                     (list_byte_of_string "PNG") in
  newEvents emptyWorld (directHandler env "7c9e" emptyWorld r).1
  = [Hashed "/tmp/temp/7c9e.png"; CacheLookup "0f1e2d";
     Posted "https://catbox.moe/user/api.php" body;
     CacheUpsert "0f1e2d" "catbox" "https://files.catbox.moe/new.png"] /\
  exists headerFilename data,
    formParses r = true /\
    formFiles r !! "file" = Some (headerFilename, data) /\
    urlMap (FormValue r "destination") = Some "https://catbox.moe/user/api.php" /\
    fileData body = data /\
    fileName body = headerFilename.
Proof.
  intros env r body. split; [reflexivity|].
  apply (direct_forwards_the_upload env "7c9e" emptyWorld r).
  right. right. left. reflexivity.
Defined.
